(** * Framework classification engine (src/tails/engine.ts)

    A shallow embedding of the runtime orchestrator [detect], the variable
    merge [vars], the [MockFileSystem] and the [FrameworkMatcher] class
    (constructor, [match], [matchHelper], [supercedes]), followed by the
    properties the specification states about them. The template
    substitution [interpolate], [readOrNull] and the caching
    [RealFileSystem] are embedded as well, with properties read off the
    source.

    Modelling conventions.
    - A JavaScript object used as a dictionary ([Record<string, T>]) is
      the finite map [gmap string T] of its own properties; a read or an
      [in] test of a name that is no own property falls through to the
      members the object inherits from [Object.prototype] ([inherited]).
    - A promise is modelled by its outcome: it resolves to a value
      ([Returns]), it rejects or the call throws ([Throws]), or it has not
      settled within the recursion budget ([Pending]).
    - Optional fields ([field?: T]) are [option T].
    - Array indices of the elimination sweep are integers ([Z]), because
      the source decrements them below zero.
    - A string is the sequence of the code units of the JavaScript string,
      all below 256. *)

From Stdlib Require Import ZArith Ascii String List Lia.
From stdpp Require Import base option list strings gmap fin_maps.

Local Open Scope string_scope.
Local Open Scope list_scope.
Local Open Scope nat_scope.

(** ** Errors and outcomes *)

(** The source throws plain [Error] objects told apart by their message;
    the constructors carry the data the message is built from. [TypeError]
    is what the JavaScript engine raises on a property access or an
    iteration over [undefined] and on a call of something that is no
    function, [RangeError] what it raises when the call stack is
    exhausted. [NotAnError member] is no error object at all: it stands
    for the member of [Object.prototype] with that name, thrown as it
    is. *)
Inductive Error : Type :=
  | InvalidRuleSet (name parent : string)
  | AmbiguousRuntime
  | AmbiguousFramework (leaves : list string)
  | NotFound
  | TypeError
  | RangeError
  | NotAnError (member : string).

Definition message (e : Error) : string :=
  match e with
  | InvalidRuleSet name parent =>
      "Framework " +:+ name +:+ " has unkonwn parent " +:+ parent
  | AmbiguousRuntime => "More than one runtime matched codebase"
  | AmbiguousFramework leaves =>
      "Matched multiple frameworks that are not known to embed each other: "
      +:+ String.concat ", " leaves
  | NotFound => "file not found"
  | TypeError => "TypeError"
  | RangeError => "Maximum call stack size exceeded"
  | NotAnError _ => ""
  end.

(** [(err as any).code] *)
Definition code (e : Error) : option string :=
  match e with
  | NotFound => Some "ENOENT"
  | _ => None
  end.

Inductive Outcome (A : Type) : Type :=
  | Returns (a : A)
  | Throws (e : Error)
  | Pending.
Arguments Returns {A} a.
Arguments Throws {A} e.
Arguments Pending {A}.

#[global] Instance Outcome_ret : MRet Outcome := fun A a => Returns a.
#[global] Instance Outcome_bind : MBind Outcome := fun A B k c =>
  match c with
  | Returns a => k a
  | Throws e => Throws e
  | Pending => Pending
  end.
#[global] Instance Outcome_fmap : FMap Outcome := fun A B g c =>
  match c with
  | Returns a => Returns (g a)
  | Throws e => Throws e
  | Pending => Pending
  end.

(** JavaScript truthiness of a [string | undefined] value: [undefined] and
    the empty string are falsy. *)
Definition truthy (v : option string) : bool :=
  match v with
  | Some s => negb (String.eqb s "")
  | None => false
  end.

(** ** Plain objects *)

(** The property names of [Object.prototype]: every object written as a
    literal or created by a class field initialiser [{}] inherits them. *)
Definition inheritedNames : list string :=
  ["constructor"; "__defineGetter__"; "__defineSetter__"; "hasOwnProperty";
   "__lookupGetter__"; "__lookupSetter__"; "isPrototypeOf";
   "propertyIsEnumerable"; "toString"; "valueOf"; "__proto__";
   "toLocaleString"].

Definition inherited (key : string) : bool :=
  bool_decide (key ∈ inheritedNames).

(** What a read [obj[key]] of a [Record<string, string>] gives when it is
    not [undefined]: the text of an own property, or the inherited member
    of that name (a function; for ["__proto__"] the prototype itself). *)
Inductive Value : Type :=
  | Text (s : string)
  | Member (name : string).

(** [key in obj] for a plain object with the own properties [own]. *)
Definition hasKey {V} (own : gmap string V) (key : string) : bool :=
  bool_decide (is_Some (own !! key)) || inherited key.

(** [obj[key]]; [None] is [undefined]. *)
Definition valueAt (own : gmap string string) (key : string) : option Value :=
  match own !! key with
  | Some s => Some (Text s)
  | None => if inherited key then Some (Member key) else None
  end.

(** Truthiness of [obj[key]]: an own property counts by its text, an
    inherited member is an object and so truthy. *)
Definition truthyAt (own : gmap string string) (key : string) : bool :=
  match own !! key with
  | Some s => truthy (Some s)
  | None => inherited key
  end.

(** ** Data model *)

Module Codebase.
Record t : Type := {
  runtimeName : string;
  frameworkName : string;
  packageManagerInstallCommand : option string;
  installCommand : option string;
  buildCommand : option string;
  devCommand : option string
}.
End Codebase.

Module FileSystem.
Record t : Type := {
  exists_ : string → bool;
  read : string → Outcome Value
}.
End FileSystem.

Module Runtime.
Record t : Type := {
  detectCodebase : FileSystem.t → option Codebase.t
}.
End Runtime.

Module Dependency.
Record t : Type := {
  name : string;
  version : option string
}.
End Dependency.

(** An entry of [requiredFiles]: [string | string[]]. *)
Inductive FileOrSet : Type :=
  | File (path : string)
  | FileSet (files : list string).

Module Framework.
Record t : Type := {
  name : string;
  parent : string;
  installCommand : option string;
  buildCommand : option string;
  devCommand : option string;
  vars : option (gmap string string);
  canEmbed : option (list string);
  requiredFiles : option (list FileOrSet);
  dependencies : option (list Dependency.t)
}.
End Framework.

(** Truthiness of the own property [key] of a rule object, [None] when
    the rule has no such property. *)
Definition ownProperty (framework : Framework.t) (key : string) : option bool :=
  if String.eqb key "name" then Some (truthy (Some (Framework.name framework)))
  else if String.eqb key "parent" then
    Some (truthy (Some (Framework.parent framework)))
  else if String.eqb key "installCommand" then
    (λ s, truthy (Some s)) <$> Framework.installCommand framework
  else if String.eqb key "buildCommand" then
    (λ s, truthy (Some s)) <$> Framework.buildCommand framework
  else if String.eqb key "devCommand" then
    (λ s, truthy (Some s)) <$> Framework.devCommand framework
  else if String.eqb key "vars" then (λ _, true) <$> Framework.vars framework
  else if String.eqb key "canEmbed" then
    (λ _, true) <$> Framework.canEmbed framework
  else if String.eqb key "requiredFiles" then
    (λ _, true) <$> Framework.requiredFiles framework
  else if String.eqb key "dependencies" then
    (λ _, true) <$> Framework.dependencies framework
  else None.

(** A detected stack, most specific framework first. *)
Abbreviation Chain := (list Framework.t).

(** ** [vars] *)

(** [{ ...vars, ...more }]: keys of [more] override those of [vars];
    spreading [undefined] adds nothing. *)
Definition spread (vars : gmap string string) (more : option (gmap string string))
  : gmap string string :=
  default ∅ more ∪ vars.

(** The loop [for (let i = frameworks.length - 1; i >= 0; i--)], started
    with [i + 1 = n]. *)
Fixpoint vars_loop (frameworks : Chain) (n : nat) (vars : gmap string string)
  : gmap string string :=
  match n with
  | O => vars
  | S i => vars_loop frameworks i (spread vars (frameworks !! i ≫= Framework.vars))
  end.

Definition vars (frameworks : Chain) : gmap string string :=
  vars_loop frameworks (length frameworks) ∅.

(** ** [detect] *)

(** The loop over [matches]; [match] is the codebase found so far. *)
Fixpoint detect_loop (matches : list (option Codebase.t)) (match_ : option Codebase.t)
  : Outcome (option Codebase.t) :=
  match matches with
  | [] => Returns match_
  | None :: rest => detect_loop rest match_
  | Some res :: rest =>
      match match_ with
      | Some _ => Throws AmbiguousRuntime
      | None => detect_loop rest (Some res)
      end
  end.

(** [allRuntimes] is [[new NodejsRuntime(), new PythonRuntime()]] in the
    source; the two classes live in other files, so the list of detectors
    is an argument here. *)
Definition detect (allRuntimes : list Runtime.t) (fs : FileSystem.t)
  : Outcome (option Codebase.t) :=
  detect_loop (map (λ runtime, Runtime.detectCodebase runtime fs) allRuntimes) None.

(** ** [MockFileSystem] *)

Module MockFileSystem.
(** [path in this.mock] *)
Definition exists_ (mock : gmap string string) (path : string) : bool :=
  hasKey mock path.

(** A path that is not [in] the mock makes [read] throw an error whose
    [code] is ["ENOENT"]; otherwise the promise resolves to
    [this.mock[path]]. *)
Definition read (mock : gmap string string) (path : string) : Outcome Value :=
  match valueAt mock path with
  | None => Throws NotFound
  | Some value => Returns value
  end.

Definition new (mock : gmap string string) : FileSystem.t :=
  {| FileSystem.exists_ := exists_ mock; FileSystem.read := read mock |}.
End MockFileSystem.

(** ** [supercedes] *)

(** [have.some((framework) => framework.name === name)] *)
Definition hasName (have : Chain) (name : string) : bool :=
  existsb (λ framework, String.eqb (Framework.name framework) name) have.

(** Both loops return [true] at the first hit, so they are existential
    tests; a framework without [canEmbed] is skipped. *)
Definition supercedes (found have : Chain) : bool :=
  existsb (λ test,
    match Framework.canEmbed test with
    | None => false
    | Some names => existsb (hasName have) names
    end) found.

(** [supercedes] applied to array reads that may be [undefined]: iterating
    an undefined [found] raises, and so does [have.some] once a framework
    of [found] lists a name to look for. *)
Definition supercedes_at (found have : option Chain) : Outcome bool :=
  match found, have with
  | None, _ => Throws TypeError
  | Some found, Some have => Returns (supercedes found have)
  | Some found, None =>
      if existsb (λ test,
           match Framework.canEmbed test with
           | Some (_ :: _) => true
           | _ => false
           end) found
      then Throws TypeError
      else Returns false
  end.

(** [a[i]] for an integer index. *)
Definition at_ {A} (a : list A) (i : Z) : option A :=
  if (i <? 0)%Z then None else a !! Z.to_nat i.

(** [a.splice(start, 1)]: a negative [start] counts from the end. *)
Definition splice {A} (a : list A) (start : Z) : list A :=
  let len := Z.of_nat (length a) in
  let k := if (start <? 0)%Z then Z.max (len + start) 0 else start in
  delete (Z.to_nat k) a.

(** ** [FrameworkMatcher] *)

Module FrameworkMatcher.
(** [frameworks] and [children] hold the own properties of the two
    indexes. [prototype] is the prototype that [this.frameworks] got by
    an assignment to ["__proto__"]; [None] is [Object.prototype], with
    which the object starts. *)
Record t : Type := {
  runtime : string;
  fs : FileSystem.t;
  frameworks : gmap string Framework.t;
  prototype : option Framework.t;
  children : gmap string (list string);
  dependencies : gmap string string
}.

Abbreviation Indexes :=
  (gmap string Framework.t * option Framework.t * gmap string (list string))%type.

(** One iteration of the first constructor loop (lines 162-164). The
    assignment [this.frameworks[name] = framework] makes an own property,
    except that the name ["__proto__"] replaces the prototype. The read
    [this.children[parent]] of a name that is no own property yet gives
    the inherited member when there is one: the [||] keeps it, and its
    [push] is no function. *)
Definition register (idx : Indexes) (framework : Framework.t) : Outcome Indexes :=
  let '(frameworks, prototype, children) := idx in
  let name := Framework.name framework in
  let parent := Framework.parent framework in
  let '(frameworks, prototype) :=
    if String.eqb name "__proto__" then (frameworks, Some framework)
    else (<[name := framework]> frameworks, prototype) in
  match children !! parent with
  | Some names =>
      Returns (frameworks, prototype, <[parent := names ++ [name]]> children)
  | None =>
      if inherited parent then Throws TypeError
      else Returns (frameworks, prototype, <[parent := [name]]> children)
  end.

Fixpoint indexFrom (idx : Indexes) (frameworks : list Framework.t)
  : Outcome Indexes :=
  match frameworks with
  | [] => Returns idx
  | framework :: rest => idx ← register idx framework; indexFrom idx rest
  end.

Definition index (frameworks : list Framework.t) : Outcome Indexes :=
  indexFrom (∅, None, ∅) frameworks.

(** Truthiness of [this.frameworks[key]]: an own property is a rule
    object; ["__proto__"] reads the prototype; any other name is looked
    up along the prototype chain, first among the own properties of a
    rule that became the prototype, then in [Object.prototype]. *)
Definition known (frameworks : gmap string Framework.t)
    (prototype : option Framework.t) (key : string) : bool :=
  match frameworks !! key with
  | Some _ => true
  | None =>
      if String.eqb key "__proto__" then true
      else
        match prototype with
        | Some above =>
            match ownProperty above key with
            | Some truth => truth
            | None => inherited key
            end
        | None => inherited key
        end
  end.

(** The sanity check: the first framework whose parent is not the runtime
    and reads falsy from [this.frameworks] aborts the construction. *)
Fixpoint sanityCheck (runtime : string) (byName : gmap string Framework.t)
    (prototype : option Framework.t) (frameworks : list Framework.t)
  : Outcome unit :=
  match frameworks with
  | [] => Returns tt
  | framework :: rest =>
      if negb (String.eqb (Framework.parent framework) runtime)
         && negb (known byName prototype (Framework.parent framework))
      then Throws (InvalidRuleSet (Framework.name framework)
                                  (Framework.parent framework))
      else sanityCheck runtime byName prototype rest
  end.

(** The object once both indexes are filled. There is such an object only
    when the first loop ran through; otherwise the indexes are left
    empty here. *)
Definition instance (runtime : string) (fs : FileSystem.t)
    (frameworks : list Framework.t) (dependencies : gmap string string) : t :=
  let idx := match index frameworks with
             | Returns idx => idx
             | _ => (∅, None, ∅)
             end in
  {| runtime := runtime; fs := fs;
     frameworks := idx.1.1;
     prototype := idx.1.2;
     children := idx.2;
     dependencies := dependencies |}.

Definition constructor (runtime : string) (fs : FileSystem.t)
    (frameworks : list Framework.t) (dependencies : gmap string string)
  : Outcome t :=
  idx ← index frameworks;
  _ ← sanityCheck runtime idx.1.1 idx.1.2 frameworks;
  Returns (instance runtime fs frameworks dependencies).

(** *** Local predicates (lines 211-229) *)

(** The loop over [dependencies || []]: every declared name must read a
    truthy value from the dependency object, which the caller passes as a
    plain object. *)
Definition dependenciesMatch (m : t) (framework : Framework.t) : bool :=
  forallb (λ dep, truthyAt (dependencies m) (Dependency.name dep))
          (default [] (Framework.dependencies framework)).

Definition fileOrSetMatch (m : t) (fileOrSet : FileOrSet) : bool :=
  match fileOrSet with
  | File path => FileSystem.exists_ (fs m) path
  | FileSet files => existsb id (map (FileSystem.exists_ (fs m)) files)
  end.

(** [filesMatch.every((x) => x)] over [requiredFiles || []]. *)
Definition filesMatch (m : t) (framework : Framework.t) : bool :=
  forallb id (map (fileOrSetMatch m)
                  (default [] (Framework.requiredFiles framework))).

Definition localMatch (m : t) (framework : Framework.t) : bool :=
  dependenciesMatch m framework && filesMatch m framework.

(** [this.frameworks[framework]], dereferenced, for the names the search
    reads: these are names the constructor registered, so the read gives
    a rule, an own property or, for ["__proto__"], the prototype. A name
    without a rule reads [undefined], whose dereference throws. *)
Definition frameworkAt (m : t) (framework : string) : Outcome Framework.t :=
  match frameworks m !! framework with
  | Some self => Returns self
  | None =>
      if String.eqb framework "__proto__" then
        match prototype m with
        | Some self => Returns self
        | None => Throws TypeError
        end
      else Throws TypeError
  end.

(** [(this.children[framework] || []).map]: an own property is the list
    of children; without one the read gives the inherited member when
    the name has one, whose [map] is no function, and [undefined]
    otherwise, which the [||] turns into the empty list. *)
Definition childrenAt (m : t) (framework : string) : Outcome (list string) :=
  match children m !! framework with
  | Some names => Returns names
  | None => if inherited framework then Throws TypeError else Returns []
  end.

(** *** Chain search *)

(** The callbacks of [Promise.all((this.children[framework] || []).map(...))]:
    each one appends the chains of its child to [paths] when the child's
    search settles, and leaves [paths] alone when the child found none.
    [names] lists the children in the order in which they settle. *)
Fixpoint gather (visit : string → Outcome (list Chain)) (names : list string)
    (paths : list Chain) : Outcome (list Chain) :=
  match names with
  | [] => Returns paths
  | name :: rest =>
      res ← visit name;
      gather visit rest (match res with [] => paths | _ => paths ++ res end)
  end.

(** [await this.matchHelper(name)] in the callback that [framework] maps
    over its children; [visit] is the search itself. The call on the
    runtime awaits nothing before it maps over its children, so a child
    that is the runtime again is entered on the same stack, and again
    from there, until the stack is exhausted: the search of that child
    rejects with [RangeError]. *)
Definition descend (visit : string → Outcome (list Chain))
    (runtime framework name : string) : Outcome (list Chain) :=
  if String.eqb framework runtime && String.eqb name runtime
  then Throws RangeError
  else visit name.

(** [completion framework names] is the order in which the searches of
    the children [names] of [framework] settle. [fuel] bounds the depth
    of the recursion: every call on a framework awaits its file checks
    before it descends, so a rule set whose parent links form a cycle
    through a framework makes the source recurse without end and without
    settling. *)
Fixpoint matchHelper (fuel : nat) (m : t)
    (completion : string → list string → list string) (framework : string)
  : Outcome (list Chain) :=
  match fuel with
  | O => Pending
  | S fuel =>
      pruned ← (if negb (String.eqb framework (runtime m)) then
                  self ← frameworkAt m framework;
                  Returns (negb (dependenciesMatch m self)
                           || negb (filesMatch m self))
                else Returns false);
      if pruned : bool then Returns []
      else
        names ← childrenAt m framework;
        paths ← gather (descend (matchHelper fuel m completion) (runtime m) framework)
                  (completion framework names) [];
        if String.eqb framework (runtime m) then Returns paths
        else
          match paths with
          | [] => self ← frameworkAt m framework; Returns [[self]]
          | _ => self ← frameworkAt m framework;
                 Returns (map (λ head, head ++ [self]) paths)
          end
  end.

(** *** Elimination sweep (lines 179-195) *)

(** The inner [for (let j ...)] loop from index [j] on. It returns the
    array and the value of [i] when the loop is left: [i - 1] after the
    [break]. Every iteration either advances [j] or shortens the array,
    so [2 * length + 1] iterations are enough. *)
Fixpoint innerLoop (fuel : nat) (allMatches : list Chain) (i j : Z)
  : Outcome (list Chain * Z) :=
  match fuel with
  | O => Pending
  | S fuel =>
      if (j <? Z.of_nat (length allMatches))%Z then
        if (i =? j)%Z then innerLoop fuel allMatches i (j + 1)
        else
          s ← supercedes_at (at_ allMatches i) (at_ allMatches j);
          if s : bool then innerLoop fuel (splice allMatches j) i (j - 1 + 1)
          else
            s' ← supercedes_at (at_ allMatches j) (at_ allMatches i);
            if s' : bool then Returns (splice allMatches i, (i - 1)%Z)
            else innerLoop fuel allMatches i (j + 1)
      else Returns (allMatches, i)
  end.

(** The outer [for (let i ...)] loop from index [i] on. *)
Fixpoint outerLoop (fuel : nat) (allMatches : list Chain) (i : Z)
  : Outcome (list Chain) :=
  match fuel with
  | O => Pending
  | S fuel =>
      if (i <? Z.of_nat (length allMatches))%Z then
        r ← innerLoop (2 * length allMatches + 1) allMatches i 0;
        outerLoop fuel r.1 (r.2 + 1)
      else Returns allMatches
  end.

Definition eliminate (allMatches : list Chain) : Outcome (list Chain) :=
  outerLoop (2 * length allMatches + 1) allMatches 0.

(** [chain[0].name] *)
Definition leaf (chain : Chain) : Outcome string :=
  match chain with
  | framework :: _ => Returns (Framework.name framework)
  | [] => Throws TypeError
  end.

(** The final decision of [match] on the surviving chains. *)
Definition decide_ (allMatches : list Chain) : Outcome Chain :=
  match allMatches with
  | [] => Returns []
  | [chain] => Returns chain
  | _ => leaves ← mapM leaf allMatches; Throws (AmbiguousFramework leaves)
  end.

Definition match_ (fuel : nat) (m : t)
    (completion : string → list string → list string) : Outcome Chain :=
  allMatches ← matchHelper fuel m completion (runtime m);
  allMatches ← eliminate allMatches;
  decide_ allMatches.
End FrameworkMatcher.

(** ** Vocabulary of the specification *)

(** The value a framework declares for a variable. *)
Definition varOf (framework : Framework.t) (key : string) : option string :=
  Framework.vars framework ≫= (λ vars, vars !! key).

(** The value of the first framework of the chain that declares [key]. *)
Fixpoint firstVar (key : string) (chain : Chain) : option string :=
  match chain with
  | [] => None
  | framework :: rest =>
      match varOf framework key with
      | Some value => Some value
      | None => firstVar key rest
      end
  end.

(** A parent that is neither the runtime nor the name of a framework of
    the rule list. *)
Definition dangling (runtime : string) (frameworks : list Framework.t)
    (framework : Framework.t) : Prop :=
  Framework.parent framework ≠ runtime
  ∧ ∀ other, other ∈ frameworks → Framework.name other ≠ Framework.parent framework.

Definition unrelated (x y : Chain) : Prop :=
  supercedes x y = false ∧ supercedes y x = false.

(** Every chain at an index below [i] is unrelated to every other chain
    of the array. *)
Definition settled (a : list Chain) (i : nat) : Prop :=
  ∀ p q x y, p < i → q ≠ p → a !! p = Some x → a !! q = Some y → unrelated x y.

(** [prunes a a']: [a'] is reached from [a] by removing chains one at a
    time, each one superseded by another chain that is in the array when
    it is removed. *)
Inductive prunes : list Chain → list Chain → Prop :=
  | prunes_done a : prunes a a
  | prunes_remove a k j x y a' :
      a !! k = Some y → a !! j = Some x → j ≠ k → supercedes x y = true →
      prunes (delete k a) a' →
      prunes a a'.

(** [descendant frameworks D F]: following parent names from [D] through
    frameworks of the rule set leads to [F]. *)
Inductive descendant (frameworks : list Framework.t)
  : Framework.t → Framework.t → Prop :=
  | descendant_child D F :
      D ∈ frameworks → F ∈ frameworks →
      Framework.parent D = Framework.name F →
      descendant frameworks D F
  | descendant_step D M F :
      D ∈ frameworks → M ∈ frameworks →
      Framework.parent D = Framework.name M →
      descendant frameworks M F →
      descendant frameworks D F.

(** A rule set is a forest below the runtime when names identify
    frameworks and no framework is named like the runtime. *)
Definition forest (runtime : string) (frameworks : list Framework.t) : Prop :=
  NoDup (map Framework.name frameworks)
  ∧ runtime ∉ map Framework.name frameworks.

(** [ordinary runtime frameworks]: neither the runtime nor the name or
    the parent of a rule is the name of a member that plain objects
    inherit. *)
Definition ordinary (runtime : string) (frameworks : list Framework.t) : Prop :=
  inherited runtime = false
  ∧ Forall (λ framework,
       inherited (Framework.name framework) = false
       ∧ inherited (Framework.parent framework) = false) frameworks.

(** The two indexes as finite maps, filled rule by rule: [entered
    frameworks] maps a name to the last rule that carries it and a parent
    to the names of the rules below it, in the order of the rule list. It
    describes what the first constructor loop leaves when it runs
    through. *)
Definition enter
    (idx : gmap string Framework.t * gmap string (list string))
    (framework : Framework.t)
  : gmap string Framework.t * gmap string (list string) :=
  let '(byName, byParent) := idx in
  (<[Framework.name framework := framework]> byName,
   <[Framework.parent framework :=
       default [] (byParent !! Framework.parent framework)
       ++ [Framework.name framework]]> byParent).

Definition entered (frameworks : list Framework.t)
  : gmap string Framework.t * gmap string (list string) :=
  fold_left enter frameworks (∅, ∅).

(** [mirrors frameworks prototype byName]: the object [this.frameworks],
    given by its own properties and its prototype, holds what the map
    [byName] holds: every name as an own property, except ["__proto__"],
    whose rule is the prototype. *)
Definition mirrors (frameworks : gmap string Framework.t)
    (prototype : option Framework.t) (byName : gmap string Framework.t) : Prop :=
  frameworks !! "__proto__" = None
  ∧ prototype = byName !! "__proto__"
  ∧ ∀ name, name ≠ "__proto__" → frameworks !! name = byName !! name.

(** Every child's search settles exactly once. *)
Definition fair (completion : string → list string → list string) : Prop :=
  ∀ framework names, completion framework names ≡ₚ names.

(** [depth runtime frameworks name d]: [name] lies [d] parent links below
    the runtime. *)
Inductive depth (runtime : string) (frameworks : list Framework.t)
  : string → nat → Prop :=
  | depth_runtime : depth runtime frameworks runtime 0
  | depth_framework framework d :
      framework ∈ frameworks →
      depth runtime frameworks (Framework.parent framework) d →
      depth runtime frameworks (Framework.name framework) (S d).

(** Frameworks that pass their predicates and whose ancestors all do. *)
Definition reachable (m : FrameworkMatcher.t) (frameworks : list Framework.t)
    (G : Framework.t) : Prop :=
  G ∈ frameworks
  ∧ FrameworkMatcher.localMatch m G = true
  ∧ ∀ A, descendant frameworks G A → FrameworkMatcher.localMatch m A = true.

(** The search is entered at [name] only after all frameworks above it
    passed their predicates. *)
Definition ancestorsMatch (m : FrameworkMatcher.t) (frameworks : list Framework.t)
    (name : string) : Prop :=
  name = FrameworkMatcher.runtime m
  ∨ ∃ N, N ∈ frameworks ∧ Framework.name N = name
         ∧ ∀ A, descendant frameworks N A → FrameworkMatcher.localMatch m A = true.

(** ** Sample rule sets *)

Definition rule (name parent : string) : Framework.t :=
  {| Framework.name := name; Framework.parent := parent;
     Framework.installCommand := None; Framework.buildCommand := None;
     Framework.devCommand := None; Framework.vars := None;
     Framework.canEmbed := None; Framework.requiredFiles := None;
     Framework.dependencies := None |}.

Definition embedding (name parent : string) (canEmbed : list string) : Framework.t :=
  {| Framework.name := name; Framework.parent := parent;
     Framework.installCommand := None; Framework.buildCommand := None;
     Framework.devCommand := None; Framework.vars := None;
     Framework.canEmbed := Some canEmbed; Framework.requiredFiles := None;
     Framework.dependencies := None |}.

Definition depending (name parent dependency : string) : Framework.t :=
  {| Framework.name := name; Framework.parent := parent;
     Framework.installCommand := None; Framework.buildCommand := None;
     Framework.devCommand := None; Framework.vars := None;
     Framework.canEmbed := None; Framework.requiredFiles := None;
     Framework.dependencies :=
       Some [{| Dependency.name := dependency; Dependency.version := None |}] |}.

Definition declaring (name parent : string) (vars : gmap string string)
  : Framework.t :=
  {| Framework.name := name; Framework.parent := parent;
     Framework.installCommand := None; Framework.buildCommand := None;
     Framework.devCommand := None; Framework.vars := Some vars;
     Framework.canEmbed := None; Framework.requiredFiles := None;
     Framework.dependencies := None |}.

(** The completion order in which the children settle in the order in
    which they were started. The source settles in this order the
    children that pass their dependency check and have neither children
    of their own nor required files: their searches take the same number
    of steps. A child with a subtree below it or with files to check
    settles later than its position says, and a child that fails its
    dependency check earlier; the latter adds no chain, so its place in
    the order does not show in the result. *)
Definition immediate (framework : string) (names : list string) : list string :=
  names.

Definition emptyFs : FileSystem.t := MockFileSystem.new ∅.

(** Construct a matcher and run [match] on it, as a caller does, the
    children settling in the order of [immediate]. *)
Definition detectFrameworks (fuel : nat) (runtime : string) (fs : FileSystem.t)
    (frameworks : list Framework.t) (dependencies : gmap string string)
  : Outcome Chain :=
  m ← FrameworkMatcher.constructor runtime fs frameworks dependencies;
  FrameworkMatcher.match_ fuel m immediate.

Definition react : Framework.t := rule "react" "node".
Definition next : Framework.t := rule "next" "react".
Definition express : Framework.t := rule "express" "node".

(** [svelte] asks for the dependency ["svelte"]; [sveltekit] sits below it. *)
Definition svelte : Framework.t := depending "svelte" "node" "svelte".
Definition sveltekit : Framework.t := rule "sveltekit" "svelte".

(** A second rule that reuses the name ["sveltekit"], directly below the
    runtime. *)
Definition sveltekitAtRoot : Framework.t := rule "sveltekit" "node".

(** A rule named like the runtime, hanging off a rule that is its own
    parent. *)
Definition selfParent : Framework.t := rule "loop" "loop".
Definition namedLikeRuntime : Framework.t := depending "node" "loop" "missing".

(** [shell] can embed [portal], and [portal] can embed [widget]. *)
Definition shell : Framework.t := embedding "shell" "node" ["portal"].
Definition portal : Framework.t := embedding "portal" "node" ["widget"].
Definition widget : Framework.t := rule "widget" "node".

Definition reactApp : Framework.t := depending "react-app" "node" "react".

(** ** [interpolate] *)

(** A string stands for the JavaScript string with the same code units,
    all below 256. Of the line terminators that [.] does not match, such a
    string can hold the line feed and the carriage return. *)
Definition lineTerminator (c : ascii) : bool :=
  Ascii.eqb c (ascii_of_nat 10) || Ascii.eqb c (ascii_of_nat 13).

(** Where the capture group ends after the opening dollar and brace: the
    group is a greedy [.*] that stays on the line, so the closing brace is
    the last one before the first line terminator. The result is its
    index. *)
Fixpoint lastClose (s : string) : option nat :=
  match s with
  | EmptyString => None
  | String c rest =>
      if lineTerminator c then None
      else
        match lastClose rest with
        | Some k => Some (S k)
        | None => if Ascii.eqb c "}" then Some 0 else None
        end
  end.

(** [s.replaceAll(re, (_, varName) => replacer(varName))] for the global
    pattern of the source: a dollar, an opening brace, the capture group
    and a closing brace. The string is read from left to right; [skip] is
    the number of characters of the match in progress that are still to
    be passed over, and the search resumes behind the match. *)
Fixpoint replaceAll (replacer : string → string) (skip : nat) (s : string) : string :=
  match s with
  | EmptyString => EmptyString
  | String c rest =>
      match skip with
      | S n => replaceAll replacer n rest
      | O =>
          match rest with
          | String d body =>
              if Ascii.eqb c "$" && Ascii.eqb d "{" then
                match lastClose body with
                | Some k =>
                    replacer (substring 0 k body)
                    +:+ replaceAll replacer (k + 2) rest
                | None => String c (replaceAll replacer 0 rest)
                end
              else String c (replaceAll replacer 0 rest)
          | EmptyString => String c EmptyString
          end
      end
  end.

(** The text [replaceAll] writes for a replacement that is an inherited
    member instead of a string: the way Node prints a built-in function,
    and the way it prints the prototype object. *)
Definition memberText (name : string) : string :=
  if String.eqb name "__proto__" then "[object Object]"
  else
    "function "
    +:+ (if String.eqb name "constructor" then "Object" else name)
    +:+ "() { [native code] }".

(** [vars?.[varName] || ""], as [replaceAll] writes it. *)
Definition variable (vars : option (gmap string string)) (varName : string) : string :=
  match vars with
  | None => ""
  | Some vars =>
      match valueAt vars varName with
      | Some (Text s) => s
      | Some (Member name) => memberText name
      | None => ""
      end
  end.

Definition interpolate (template : option string) (vars : option (gmap string string))
  : option string :=
  match template with
  | None => None
  | Some EmptyString => Some EmptyString
  | Some template => Some (replaceAll (variable vars) 0 template)
  end.

(** [c] occurs in [s]. *)
Fixpoint occurs (c : ascii) (s : string) : bool :=
  match s with
  | EmptyString => false
  | String d rest => Ascii.eqb d c || occurs c rest
  end.

(** [s] holds no line terminator. *)
Fixpoint singleLine (s : string) : bool :=
  match s with
  | EmptyString => true
  | String c rest => negb (lineTerminator c) && singleLine rest
  end.

(** ** [readOrNull] *)

(** What calling a method that hands out a promise does: it throws before
    it returns, or it returns a promise, which settles or not. *)
Inductive Call (A : Type) : Type :=
  | Raises (e : Error)
  | Promise (o : Outcome A).
Arguments Raises {A} e.
Arguments Promise {A} o.

(** [MockFileSystem.read] as a call: it is no [async] method, so its
    [throw] happens during the call; a path that is [in] the mock gives
    [Promise.resolve]. *)
Definition mockReadCall (mock : gmap string string) (path : string) : Call Value :=
  match valueAt mock path with
  | None => Raises NotFound
  | Some value => Promise (Returns value)
  end.

(** [readOrNull] returns [fs.read(path)] without awaiting it: the [catch]
    sees what the call throws, not how the returned promise settles. The
    function being [async], its result follows the promise it returns.
    [None] is [null]. *)
Definition readOrNull {A} (read : string → Call A) (path : string)
  : Outcome (option A) :=
  match read path with
  | Raises err =>
      if bool_decide (code err = Some "ENOENT") then Returns None
      else Throws err
  | Promise o => Some <$> o
  end.

(** ** [RealFileSystem] *)

(** The functions of Node's [fs] and [path] modules that the class calls.
    [readFile] gives the decoded content, or the error it fails with. *)
Module Node.
Record t : Type := {
  join : string → string → string;
  exists_ : string → bool;
  readFile : string → Outcome string
}.
End Node.

Module RealFileSystem.
Record t : Type := {
  cwd : string;
  existsCache : gmap string bool;
  contentCache : gmap string string;
  readErrorCache : gmap string Error
}.

Definition new (cwd : string) : t :=
  {| cwd := cwd; existsCache := ∅; contentCache := ∅; readErrorCache := ∅ |}.

(** [exists(path)]: the truthiness of the answer and the object
    afterwards. [node] is the disk as it is during the call. For a name
    the cache inherits the test [path in this.existsCache] holds without
    an entry, and the answer is the inherited member, which is truthy. *)
Definition exists_ (node : Node.t) (this : t) (path : string) : bool * t :=
  match existsCache this !! path with
  | Some answer => (answer, this)
  | None =>
      if inherited path then (true, this)
      else
      let answer := Node.exists_ node (Node.join node (cwd this) path) in
      (answer,
       {| cwd := cwd this;
          existsCache := <[path := answer]> (existsCache this);
          contentCache := contentCache this;
          readErrorCache := readErrorCache this |})
  end.

(** [read(path)]: how the returned promise settles and the object
    afterwards. The test [this.readErrorCache[path]] is truthy for a
    remembered error and for a name the cache inherits; what it reads is
    thrown. *)
Definition read (node : Node.t) (this : t) (path : string) : Outcome string * t :=
  match readErrorCache this !! path with
  | Some err => (Throws err, this)
  | None =>
      if inherited path then (Throws (NotAnError path), this)
      else
      match contentCache this !! path with
      | Some content => (Returns content, this)
      | None =>
          match Node.readFile node (Node.join node (cwd this) path) with
          | Returns content =>
              (Returns content,
               {| cwd := cwd this;
                  existsCache := existsCache this;
                  contentCache := <[path := content]> (contentCache this);
                  readErrorCache := readErrorCache this |})
          | Throws err =>
              (Throws err,
               if bool_decide (code err = Some "ENOENT") then
                 {| cwd := cwd this;
                    existsCache := existsCache this;
                    contentCache := contentCache this;
                    readErrorCache := <[path := err]> (readErrorCache this) |}
               else this)
          | Pending => (Pending, this)
          end
      end
  end.

(** [read] is an [async] method: the call itself never throws. *)
Definition readCall (node : Node.t) (this : t) (path : string) : Call string :=
  Promise (read node this path).1.

(** What the caches hold at any time: an error is remembered only when
    its code is ["ENOENT"], and no path has both a content and an error. *)
Definition consistent (this : t) : Prop :=
  (∀ path err, readErrorCache this !! path = Some err → code err = Some "ENOENT")
  ∧ (∀ path, is_Some (contentCache this !! path) →
             readErrorCache this !! path = None).
End RealFileSystem.

(** ** Vocabulary for the further properties *)

(** [ascends chain top]: every framework of the chain names the next one
    as its parent, and the last one is [top]. *)
Fixpoint ascends (chain : Chain) (top : Framework.t) : Prop :=
  match chain with
  | [] => False
  | framework :: rest =>
      match rest with
      | [] => framework = top
      | above :: _ =>
          Framework.parent framework = Framework.name above ∧ ascends rest top
      end
  end.

(** [under m frameworks name F]: the parent links from [F] lead to [name]
    through frameworks of the rule set, and [F] and every framework on the
    way pass their predicates. *)
Inductive under (m : FrameworkMatcher.t) (frameworks : list Framework.t)
  : string → Framework.t → Prop :=
  | under_child name F :
      F ∈ frameworks → Framework.parent F = name →
      FrameworkMatcher.localMatch m F = true →
      under m frameworks name F
  | under_below name T F :
      T ∈ frameworks → Framework.parent T = name →
      FrameworkMatcher.localMatch m T = true →
      under m frameworks (Framework.name T) F →
      under m frameworks name F.

(** ** Further samples *)

(** A disk without files, and one on which every path reads as ["{}"]. *)
Definition emptyDisk : Node.t :=
  {| Node.join := λ cwd path, cwd +:+ "/" +:+ path;
     Node.exists_ := λ _, false;
     Node.readFile := λ _, Throws NotFound |}.

Definition fullDisk : Node.t :=
  {| Node.join := λ cwd path, cwd +:+ "/" +:+ path;
     Node.exists_ := λ _, true;
     Node.readFile := λ _, Returns "{}" |}.

(** A detector that finds a Node-style project where [package.json]
    exists, and one that never finds anything. *)
Definition packageJsonRuntime : Runtime.t :=
  {| Runtime.detectCodebase := λ fs,
       if FileSystem.exists_ fs "package.json" then
         Some {| Codebase.runtimeName := "nodejs";
                 Codebase.frameworkName := "";
                 Codebase.packageManagerInstallCommand := None;
                 Codebase.installCommand := Some "npm install";
                 Codebase.buildCommand := None;
                 Codebase.devCommand := None |}
       else None |}.

Definition silentRuntime : Runtime.t :=
  {| Runtime.detectCodebase := λ _, None |}.

(** * Properties *)

(** ** [vars] *)

Lemma spread_lookup vars more key :
  spread vars more !! key =
  match more ≫= (λ m, m !! key) with Some v => Some v | None => vars !! key end.
Proof.
  unfold spread. rewrite lookup_union.
  destruct more as [m|]; simpl.
  - destruct (m !! key), (vars !! key); reflexivity.
  - rewrite lookup_empty. destruct (vars !! key); reflexivity.
Qed.

Lemma vars_loop_lookup chain n acc key :
  n ≤ length chain →
  vars_loop chain n acc !! key =
  match firstVar key (take n chain) with Some v => Some v | None => acc !! key end.
Proof.
  revert acc. induction n as [|n IH]; intros acc Hn; simpl.
  - destruct chain; reflexivity.
  - rewrite IH by lia. clear IH.
    destruct (lookup_lt_is_Some_2 chain n) as [f Hf]; [lia|].
    rewrite (take_S_r _ _ _ Hf), Hf. simpl.
    rewrite spread_lookup. fold (varOf f key).
    generalize (take n chain). intros l. induction l as [|g l IHl]; simpl.
    + destruct (varOf f key); reflexivity.
    + destruct (varOf g key); [reflexivity|exact IHl].
Qed.

Lemma vars_lookup chain key : vars chain !! key = firstVar key chain.
Proof.
  unfold vars. rewrite vars_loop_lookup by lia. rewrite firstn_all.
  rewrite lookup_empty. destruct (firstVar key chain); reflexivity.
Qed.

Lemma firstVar_at key chain i framework value :
  chain !! i = Some framework → varOf framework key = Some value →
  (∀ j other, j < i → chain !! j = Some other → varOf other key = None) →
  firstVar key chain = Some value.
Proof.
  revert i. induction chain as [|g chain IH]; intros i Hi Hv Hlt; [discriminate|].
  destruct i as [|i]; simpl in *.
  - injection Hi as ->. rewrite Hv. reflexivity.
  - rewrite (Hlt 0 g) by (lia || reflexivity).
    apply (IH i); [assumption..|].
    intros j other Hj Ho. apply (Hlt (S j) other); [lia|exact Ho].
Qed.

Lemma firstVar_none key chain :
  (∀ framework, framework ∈ chain → varOf framework key = None) →
  firstVar key chain = None.
Proof.
  induction chain as [|g chain IH]; intros H; simpl; [reflexivity|].
  rewrite (H g) by (left). apply IH. intros f Hf. apply H. right. exact Hf.
Qed.

Lemma firstVar_some key chain value :
  firstVar key chain = Some value →
  ∃ i framework, chain !! i = Some framework ∧ varOf framework key = Some value
    ∧ ∀ j other, j < i → chain !! j = Some other → varOf other key = None.
Proof.
  induction chain as [|g chain IH]; simpl; [discriminate|].
  destruct (varOf g key) as [v|] eqn:Hg.
  - intros [= ->]. exists 0, g. repeat split; [assumption|]. intros j other Hj. lia.
  - intros H. destruct (IH H) as (i & f & Hi & Hv & Hlt).
    exists (S i), f. repeat split; [assumption..|].
    intros [|j] other Hj Ho; simpl in Ho.
    + injection Ho as <-. exact Hg.
    + apply (Hlt j); [lia|exact Ho].
Qed.

(** Claim C9. In the map returned by [vars], a key declared by several
    frameworks of the chain carries the value of the framework nearest to
    index 0: the first framework of the chain that declares the key decides
    its value, a key that no framework declares is absent, and every value
    of the result comes from a framework of the chain. *)
Theorem vars_most_specific_wins (chain : Chain) (key : string) :
  (∀ i framework value,
      chain !! i = Some framework →
      varOf framework key = Some value →
      (∀ j other, j < i → chain !! j = Some other → varOf other key = None) →
      vars chain !! key = Some value)
  ∧ ((∀ framework, framework ∈ chain → varOf framework key = None) →
     vars chain !! key = None)
  ∧ (∀ value, vars chain !! key = Some value →
       ∃ framework, framework ∈ chain ∧ varOf framework key = Some value).
Proof.
  rewrite vars_lookup. split; [|split].
  - intros i f v. apply firstVar_at.
  - apply firstVar_none.
  - intros v Hv. destruct (firstVar_some _ _ _ Hv) as (i & f & Hi & Hf & _).
    exists f. split; [|exact Hf]. apply list_elem_of_lookup. eauto.
Qed.

(** ** [MockFileSystem], [detect] and the local predicates *)

Lemma inherited_spec (key : string) :
  inherited key = true ↔ key ∈ inheritedNames.
Proof. unfold inherited. apply bool_decide_eq_true. Qed.

Lemma hasKey_valueAt (own : gmap string string) (key : string) :
  hasKey own key = bool_decide (is_Some (valueAt own key)).
Proof.
  unfold hasKey, valueAt. destruct (own !! key) as [s|].
  - rewrite !bool_decide_eq_true_2 by eauto. reflexivity.
  - rewrite (bool_decide_eq_false_2 (is_Some None)) by (intros [? ?]; discriminate).
    simpl. destruct (inherited key).
    + rewrite bool_decide_eq_true_2 by eauto. reflexivity.
    + rewrite bool_decide_eq_false_2 by (intros [? ?]; discriminate). reflexivity.
Qed.

(** Claim C10, as amended. [MockFileSystem.read] and
    [MockFileSystem.exists] agree on every path: [exists] answers true
    exactly when [read] resolves, and false exactly when [read] fails
    with an error whose code is ENOENT. For a path that is no name
    inherited from [Object.prototype], [exists] answers true exactly when
    the path is a key of the mock and [read] returns the mapped content;
    a key of the mock always reads as its content. *)
Theorem MockFileSystem_read_agrees_with_exists (mock : gmap string string) (path : string) :
  (MockFileSystem.exists_ mock path = true ↔
     ∃ value, MockFileSystem.read mock path = Returns value)
  ∧ (MockFileSystem.exists_ mock path = false ↔
     ∃ e, MockFileSystem.read mock path = Throws e ∧ code e = Some "ENOENT")
  ∧ (inherited path = false →
     (MockFileSystem.exists_ mock path = true ↔
        ∃ content, mock !! path = Some content
                   ∧ MockFileSystem.read mock path = Returns (Text content)))
  ∧ (∀ content, mock !! path = Some content →
       MockFileSystem.exists_ mock path = true
       ∧ MockFileSystem.read mock path = Returns (Text content)).
Proof.
  unfold MockFileSystem.exists_, MockFileSystem.read.
  rewrite hasKey_valueAt. unfold valueAt.
  destruct (mock !! path) as [content|] eqn:Hp; [|destruct (inherited path) eqn:Hi].
  - rewrite bool_decide_eq_true_2 by eauto.
    split; [|split; [|split]].
    + split; eauto.
    + split; [discriminate|]. intros (e & He & _). discriminate.
    + intros _. split; eauto.
    + intros content' [= <-]. split; reflexivity.
  - rewrite bool_decide_eq_true_2 by eauto.
    split; [|split; [|split]].
    + split; eauto.
    + split; [discriminate|]. intros (e & He & _). discriminate.
    + discriminate.
    + discriminate.
  - rewrite bool_decide_eq_false_2 by (intros [? ?]; discriminate).
    split; [|split; [|split]].
    + split; [discriminate|]. intros (value & H). discriminate.
    + split; [|reflexivity]. intros _. exists NotFound. split; reflexivity.
    + intros _. split; [discriminate|]. intros (content & H & _). discriminate.
    + discriminate.
Qed.

Lemma detect_loop_found fs (allRuntimes : list Runtime.t) codebase :
  detect_loop (map (λ runtime, Runtime.detectCodebase runtime fs) allRuntimes)
              (Some codebase) =
  match omap (λ runtime, Runtime.detectCodebase runtime fs) allRuntimes with
  | [] => Returns (Some codebase)
  | _ :: _ => Throws AmbiguousRuntime
  end.
Proof.
  induction allRuntimes as [|runtime rest IH]; simpl; [reflexivity|].
  destruct (Runtime.detectCodebase runtime fs); [reflexivity|exact IH].
Qed.

(** Claim C7. [detect] returns nothing when no runtime detector reports a
    codebase, the codebase when exactly one does, and fails with the
    ambiguous-runtime error when two or more do. *)
Theorem detect_zero_one_many (allRuntimes : list Runtime.t) (fs : FileSystem.t) :
  detect allRuntimes fs =
  match omap (λ runtime, Runtime.detectCodebase runtime fs) allRuntimes with
  | [] => Returns None
  | [codebase] => Returns (Some codebase)
  | _ :: _ :: _ => Throws AmbiguousRuntime
  end.
Proof.
  unfold detect.
  induction allRuntimes as [|runtime rest IH]; simpl; [reflexivity|].
  destruct (Runtime.detectCodebase runtime fs) as [codebase|]; [|exact IH].
  rewrite detect_loop_found. clear IH.
  unfold omap. destruct (list_omap _ _ _ rest); reflexivity.
Qed.

Lemma forallb_id_map {A} (f : A → bool) (l : list A) :
  forallb id (map f l) = forallb f l.
Proof. induction l as [|x l IH]; simpl; [reflexivity|]. rewrite IH. reflexivity. Qed.

Lemma existsb_id_map {A} (f : A → bool) (l : list A) :
  existsb id (map f l) = existsb f l.
Proof. induction l as [|x l IH]; simpl; [reflexivity|]. rewrite IH. reflexivity. Qed.

(** Claim C6. The file predicate is the conjunction over the entries of
    [requiredFiles]: a single path must exist, a set of alternatives needs
    one existing path. An absent or empty list makes it true. *)
Theorem filesMatch_and_of_or (m : FrameworkMatcher.t) (framework : Framework.t) :
  (FrameworkMatcher.filesMatch m framework = true ↔
     ∀ entry, entry ∈ default [] (Framework.requiredFiles framework) →
       match entry with
       | File path => FileSystem.exists_ (FrameworkMatcher.fs m) path = true
       | FileSet files =>
           ∃ path, path ∈ files
                   ∧ FileSystem.exists_ (FrameworkMatcher.fs m) path = true
       end)
  ∧ (Framework.requiredFiles framework = None
     ∨ Framework.requiredFiles framework = Some [] →
     FrameworkMatcher.filesMatch m framework = true).
Proof.
  unfold FrameworkMatcher.filesMatch. rewrite forallb_id_map. split.
  - rewrite forallb_forall. split.
    + intros H entry Hin. apply list_elem_of_In in Hin. specialize (H entry Hin).
      destruct entry as [path|files]; simpl in H; [exact H|].
      rewrite existsb_id_map in H. apply existsb_exists in H.
      destruct H as (path & Hin' & Hp). exists path.
      split; [apply list_elem_of_In; exact Hin'|exact Hp].
    + intros H entry Hin. apply list_elem_of_In in Hin. specialize (H entry Hin).
      destruct entry as [path|files]; simpl; [exact H|].
      destruct H as (path & Hin' & Hp). rewrite existsb_id_map.
      apply existsb_exists. exists path.
      split; [apply list_elem_of_In; exact Hin'|exact Hp].
  - intros [-> | ->]; reflexivity.
Qed.

Lemma truthy_spec (v : option string) :
  truthy v = true ↔ ∃ s, v = Some s ∧ s ≠ "".
Proof.
  destruct v as [s|]; simpl.
  - rewrite negb_true_iff. split.
    + intros H. exists s. split; [reflexivity|]. intros ->. discriminate.
    + intros (s' & [= <-] & Hs). apply String.eqb_neq. exact Hs.
  - split; [discriminate|]. intros (s & Hs & _). discriminate.
Qed.

Lemma truthyAt_spec (own : gmap string string) (key : string) :
  truthyAt own key = true ↔
  (∃ s, own !! key = Some s ∧ s ≠ "") ∨ (own !! key = None ∧ inherited key = true).
Proof.
  unfold truthyAt. destruct (own !! key) as [s|] eqn:Hs.
  - rewrite truthy_spec. split.
    + intros (s' & [= <-] & Hne). left. eauto.
    + intros [(s' & [= <-] & Hne)|[? _]]; [eauto|discriminate].
  - split.
    + intros H. right. split; [reflexivity|exact H].
    + intros [(s' & ? & _)|[_ H]]; [discriminate|exact H].
Qed.

(** What the dependency loop decides: every declared name reads a
    non-empty string from the dependency object, or is no key of it and
    the name of a member the object inherits. The declared [version] of a
    dependency plays no part. *)
Lemma dependenciesMatch_spec (m : FrameworkMatcher.t) (framework : Framework.t) :
  FrameworkMatcher.dependenciesMatch m framework = true ↔
  ∀ dep, dep ∈ default [] (Framework.dependencies framework) →
    (∃ s, FrameworkMatcher.dependencies m !! Dependency.name dep = Some s ∧ s ≠ "")
    ∨ (FrameworkMatcher.dependencies m !! Dependency.name dep = None
       ∧ inherited (Dependency.name dep) = true).
Proof.
  unfold FrameworkMatcher.dependenciesMatch. rewrite forallb_forall.
  split; intros H dep Hin.
  - apply truthyAt_spec. apply H. apply list_elem_of_In. exact Hin.
  - apply truthyAt_spec. apply H. apply list_elem_of_In. exact Hin.
Qed.

(** ** Construction *)

(** *** The two indexes as maps *)

Lemma entered_fold_frameworks (l : list Framework.t) byName byParent :
  (fold_left enter l (byName, byParent)).1 =
  fold_left (λ acc framework, <[Framework.name framework := framework]> acc) l byName.
Proof.
  revert byName byParent. induction l as [|g l IH]; intros; simpl; [reflexivity|].
  apply IH.
Qed.

Lemma entered_frameworks_other (l : list Framework.t) (byName : gmap string Framework.t) n :
  (∀ g, g ∈ l → Framework.name g ≠ n) →
  fold_left (λ acc framework, <[Framework.name framework := framework]> acc) l byName !! n
  = byName !! n.
Proof.
  revert byName. induction l as [|g l IH]; intros byName H; simpl; [reflexivity|].
  rewrite IH by (intros g' Hg'; apply H; right; exact Hg').
  apply lookup_insert_ne. apply H. left.
Qed.

Lemma entered_frameworks_elem (l : list Framework.t) (byName : gmap string Framework.t) n g :
  fold_left (λ acc framework, <[Framework.name framework := framework]> acc) l byName !! n
  = Some g →
  byName !! n = Some g ∨ (g ∈ l ∧ Framework.name g = n).
Proof.
  revert byName. induction l as [|h l IH]; intros byName H; simpl in H; [left; exact H|].
  apply IH in H. destruct H as [H|[H1 H2]].
  - destruct (decide (Framework.name h = n)) as [E|E].
    + rewrite <- E, lookup_insert_eq in H. injection H as <-.
      right. split; [left|exact E].
    + rewrite lookup_insert_ne in H by exact E. left. exact H.
  - right. split; [right; exact H1|exact H2].
Qed.

Lemma entered_frameworks_is_Some (l : list Framework.t) (byName : gmap string Framework.t) n :
  is_Some (fold_left (λ acc framework, <[Framework.name framework := framework]> acc)
             l byName !! n)
  ↔ is_Some (byName !! n) ∨ ∃ g, g ∈ l ∧ Framework.name g = n.
Proof.
  revert byName. induction l as [|h l IH]; intros byName; simpl.
  - split; [intros H; left; exact H|].
    intros [H|(g & Hg & _)]; [exact H|]. inversion Hg.
  - rewrite IH. rewrite lookup_insert_is_Some. split.
    + intros [[E|[_ H]]|(g & Hg & E)].
      * right. exists h. split; [left|exact E].
      * left. exact H.
      * right. exists g. split; [right; exact Hg|exact E].
    + intros [H|(g & Hg & E)].
      * destruct (decide (Framework.name h = n)) as [E|E]; left; [left|right]; auto.
      * apply elem_of_cons in Hg. destruct Hg as [->|Hg].
        -- left. left. exact E.
        -- right. exists g. split; assumption.
Qed.

Lemma entered_frameworks_NoDup (l : list Framework.t) (byName : gmap string Framework.t) g :
  NoDup (map Framework.name l) → g ∈ l →
  fold_left (λ acc framework, <[Framework.name framework := framework]> acc) l byName
    !! Framework.name g = Some g.
Proof.
  revert byName. induction l as [|h l IH]; intros byName Hnd Hg; [inversion Hg|].
  simpl in *. apply NoDup_cons in Hnd. destruct Hnd as [Hh Hnd].
  apply elem_of_cons in Hg. destruct Hg as [->|Hg].
  - rewrite entered_frameworks_other; [apply lookup_insert_eq|].
    intros g' Hg' E. apply Hh. rewrite <- E. apply list_elem_of_fmap_2. exact Hg'.
  - apply IH; assumption.
Qed.

Lemma entered_fold_children (l : list Framework.t) byName
    (byParent : gmap string (list string)) p :
  default [] ((fold_left enter l (byName, byParent)).2 !! p) =
  default [] (byParent !! p)
  ++ map Framework.name (filter (λ g, Framework.parent g = p) l).
Proof.
  revert byName byParent. induction l as [|g l IH]; intros; simpl.
  - rewrite app_nil_r. reflexivity.
  - rewrite IH. clear IH. rewrite filter_cons.
    destruct (decide (Framework.parent g = p)) as [E|E].
    + rewrite E, lookup_insert_eq. simpl. rewrite <- app_assoc. reflexivity.
    + rewrite lookup_insert_ne by exact E. reflexivity.
Qed.

Lemma entered_children (l : list Framework.t) p :
  default [] ((entered l).2 !! p) =
  map Framework.name (filter (λ g, Framework.parent g = p) l).
Proof. unfold entered. rewrite entered_fold_children. reflexivity. Qed.

Lemma entered_registered (l : list Framework.t) n :
  is_Some ((entered l).1 !! n) ↔ ∃ g, g ∈ l ∧ Framework.name g = n.
Proof.
  unfold entered. rewrite entered_fold_frameworks, entered_frameworks_is_Some.
  rewrite lookup_empty. split; [|intros H; right; exact H].
  intros [[? H]|H]; [discriminate|exact H].
Qed.

Lemma entered_lookup_elem (l : list Framework.t) n g :
  (entered l).1 !! n = Some g → g ∈ l ∧ Framework.name g = n.
Proof.
  unfold entered. rewrite entered_fold_frameworks.
  intros H. apply entered_frameworks_elem in H. destruct H as [H|H]; [|exact H].
  rewrite lookup_empty in H. discriminate.
Qed.

Lemma entered_lookup_NoDup (l : list Framework.t) g :
  NoDup (map Framework.name l) → g ∈ l →
  (entered l).1 !! Framework.name g = Some g.
Proof.
  intros. unfold entered. rewrite entered_fold_frameworks.
  apply entered_frameworks_NoDup; assumption.
Qed.

Lemma entered_fold_children_is_Some (l : list Framework.t) byName
    (byParent : gmap string (list string)) p :
  is_Some ((fold_left enter l (byName, byParent)).2 !! p)
  ↔ is_Some (byParent !! p) ∨ ∃ g, g ∈ l ∧ Framework.parent g = p.
Proof.
  revert byName byParent. induction l as [|h l IH]; intros byName byParent; simpl.
  - split; [intros H; left; exact H|].
    intros [H|(g & Hg & _)]; [exact H|]. inversion Hg.
  - rewrite IH. rewrite lookup_insert_is_Some. split.
    + intros [[E|[_ H]]|(g & Hg & E)].
      * right. exists h. split; [left|exact E].
      * left. exact H.
      * right. exists g. split; [right; exact Hg|exact E].
    + intros [H|(g & Hg & E)].
      * destruct (decide (Framework.parent h = p)) as [E|E]; left; [left|right]; auto.
      * apply elem_of_cons in Hg. destruct Hg as [->|Hg].
        -- left. left. exact E.
        -- right. exists g. split; assumption.
Qed.

Lemma entered_children_is_Some (l : list Framework.t) p :
  is_Some ((entered l).2 !! p) ↔ ∃ g, g ∈ l ∧ Framework.parent g = p.
Proof.
  unfold entered. rewrite entered_fold_children_is_Some, lookup_empty.
  split; [|intros H; right; exact H].
  intros [[? H]|H]; [discriminate|exact H].
Qed.

(** *** The first constructor loop *)

Lemma register_Returns F P C (f : Framework.t) idx G :
  FrameworkMatcher.register (F, P, C) f = Returns idx →
  mirrors F P G →
  mirrors idx.1.1 idx.1.2 (<[Framework.name f := f]> G)
  ∧ idx.2 = <[Framework.parent f :=
                default [] (C !! Framework.parent f) ++ [Framework.name f]]> C.
Proof.
  unfold FrameworkMatcher.register. intros H (HF & HP & Hn).
  assert (mirrors
            (if String.eqb (Framework.name f) "__proto__" then (F, Some f)
             else (<[Framework.name f := f]> F, P)).1
            (if String.eqb (Framework.name f) "__proto__" then (F, Some f)
             else (<[Framework.name f := f]> F, P)).2
            (<[Framework.name f := f]> G)) as Hm.
  { destruct (String.eqb_spec (Framework.name f) "__proto__") as [E|E]; simpl.
    - rewrite E. split; [exact HF|]. split; [rewrite lookup_insert_eq; reflexivity|].
      intros n Hne. rewrite lookup_insert_ne by congruence. apply Hn. exact Hne.
    - split; [rewrite lookup_insert_ne by exact E; exact HF|].
      split; [rewrite lookup_insert_ne by exact E; exact HP|].
      intros n Hne. destruct (decide (Framework.name f = n)) as [<-|E'].
      + rewrite !lookup_insert_eq. reflexivity.
      + rewrite !lookup_insert_ne by exact E'. apply Hn. exact Hne. }
  destruct (if String.eqb (Framework.name f) "__proto__" then (F, Some f)
            else (<[Framework.name f := f]> F, P)) as [F' P'].
  simpl in Hm.
  destruct (C !! Framework.parent f) as [names|] eqn:HC.
  - injection H as <-. split; [exact Hm|reflexivity].
  - destruct (inherited (Framework.parent f)); [discriminate|].
    injection H as <-. split; [exact Hm|reflexivity].
Qed.

Lemma indexFrom_entered (l : list Framework.t) F P C G idx :
  FrameworkMatcher.indexFrom (F, P, C) l = Returns idx →
  mirrors F P G →
  mirrors idx.1.1 idx.1.2 (fold_left enter l (G, C)).1
  ∧ idx.2 = (fold_left enter l (G, C)).2.
Proof.
  revert F P C G. induction l as [|f l IH]; intros F P C G H Hm.
  - simpl in *. injection H as <-. split; [exact Hm|reflexivity].
  - cbn [FrameworkMatcher.indexFrom] in H.
    destruct (FrameworkMatcher.register (F, P, C) f) as [[[F' P'] C']| |] eqn:Hr;
      try discriminate.
    destruct (register_Returns _ _ _ _ _ G Hr Hm) as [Hm' HC']. simpl in Hm', HC'.
    change (FrameworkMatcher.indexFrom (F', P', C') l = Returns idx) in H.
    simpl fold_left. rewrite <- HC'. exact (IH _ _ _ _ H Hm').
Qed.

Lemma mirrors_empty : mirrors ∅ None ∅.
Proof. split; [|split]; [apply lookup_empty|rewrite lookup_empty; reflexivity|].
  intros n _. reflexivity. Qed.

(** When the first loop runs through, the two indexes hold what
    [entered] holds. *)
Lemma index_entered (l : list Framework.t) idx :
  FrameworkMatcher.index l = Returns idx →
  mirrors idx.1.1 idx.1.2 (entered l).1 ∧ idx.2 = (entered l).2.
Proof. intros H. exact (indexFrom_entered l _ _ _ _ _ H mirrors_empty). Qed.

Lemma indexFrom_cases (l : list Framework.t) F P (C : gmap string (list string)) :
  (∀ p, is_Some (C !! p) → inherited p = false) →
  (∃ idx, FrameworkMatcher.indexFrom (F, P, C) l = Returns idx
          ∧ ∀ f, f ∈ l → inherited (Framework.parent f) = false)
  ∨ (FrameworkMatcher.indexFrom (F, P, C) l = Throws TypeError
     ∧ ∃ f, f ∈ l ∧ inherited (Framework.parent f) = true).
Proof.
  revert F P C. induction l as [|f l IH]; intros F P C HC.
  - left. exists (F, P, C). split; [reflexivity|]. intros f Hf. inversion Hf.
  - assert (inherited (Framework.parent f) = true
            ∧ FrameworkMatcher.register (F, P, C) f = Throws TypeError
            ∨ inherited (Framework.parent f) = false
              ∧ ∃ F' P' C', FrameworkMatcher.register (F, P, C) f = Returns (F', P', C')
                  ∧ ∀ p, is_Some (C' !! p) → inherited p = false) as Hr.
    { unfold FrameworkMatcher.register.
      destruct (if String.eqb (Framework.name f) "__proto__" then (F, Some f)
                else (<[Framework.name f := f]> F, P)) as [F' P'].
      destruct (C !! Framework.parent f) as [names|] eqn:Hp.
      - right. split; [apply HC; eauto|]. eexists _, _, _. split; [reflexivity|].
        intros p Hs. apply lookup_insert_is_Some in Hs.
        destruct Hs as [<-|[_ Hs]]; apply HC; eauto.
      - destruct (inherited (Framework.parent f)) eqn:Hi.
        + left. split; reflexivity.
        + right. split; [reflexivity|]. eexists _, _, _. split; [reflexivity|].
          intros p Hs. apply lookup_insert_is_Some in Hs.
          destruct Hs as [<-|[_ Hs]]; [exact Hi|apply HC; exact Hs]. }
    destruct Hr as [[Hi Hr]|(Hi & F' & P' & C' & Hr & HC')].
    + right. split; [cbn [FrameworkMatcher.indexFrom]; rewrite Hr; reflexivity|]. exists f. split; [left|exact Hi].
    + destruct (IH F' P' C' HC') as [(idx & Hidx & Hall)|(Hidx & g & Hg & Hgi)].
      * left. exists idx. split; [cbn [FrameworkMatcher.indexFrom]; rewrite Hr; exact Hidx|].
        intros g Hg. apply elem_of_cons in Hg. destruct Hg as [->|Hg]; auto.
      * right. split; [cbn [FrameworkMatcher.indexFrom]; rewrite Hr; exact Hidx|].
        exists g. split; [right; exact Hg|exact Hgi].
Qed.

(** The first loop runs through unless a rule names an inherited member
    as its parent, and then it throws a [TypeError]. *)
Lemma index_cases (l : list Framework.t) :
  (∃ idx, FrameworkMatcher.index l = Returns idx
          ∧ ∀ f, f ∈ l → inherited (Framework.parent f) = false)
  ∨ (FrameworkMatcher.index l = Throws TypeError
     ∧ ∃ f, f ∈ l ∧ inherited (Framework.parent f) = true).
Proof.
  apply indexFrom_cases. intros p [? H]. rewrite lookup_empty in H. discriminate.
Qed.

Lemma index_Returns (l : list Framework.t) :
  (∀ f, f ∈ l → inherited (Framework.parent f) = false) →
  ∃ idx, FrameworkMatcher.index l = Returns idx.
Proof.
  intros H. destruct (index_cases l) as [(idx & Hidx & _)|(_ & f & Hf & Hi)]; [eauto|].
  rewrite (H f Hf) in Hi. discriminate.
Qed.

(** *** Reading the indexes *)

Lemma frameworkAt_mirrors (m : FrameworkMatcher.t) G n :
  mirrors (FrameworkMatcher.frameworks m) (FrameworkMatcher.prototype m) G →
  FrameworkMatcher.frameworkAt m n =
  match G !! n with
  | Some g => Returns g
  | None => Throws TypeError
  end.
Proof.
  intros (HF & HP & Hn). unfold FrameworkMatcher.frameworkAt.
  destruct (String.eqb_spec n "__proto__") as [->|E].
  - rewrite HF, HP. destruct (G !! "__proto__"); reflexivity.
  - rewrite (Hn n E). destruct (G !! n); reflexivity.
Qed.

Lemma instance_runtime runtime fs (l : list Framework.t) dependencies :
  FrameworkMatcher.runtime (FrameworkMatcher.instance runtime fs l dependencies)
  = runtime.
Proof. reflexivity. Qed.

Lemma instance_fs runtime fs (l : list Framework.t) dependencies :
  FrameworkMatcher.fs (FrameworkMatcher.instance runtime fs l dependencies) = fs.
Proof. reflexivity. Qed.

Lemma instance_dependencies runtime fs (l : list Framework.t) dependencies :
  FrameworkMatcher.dependencies (FrameworkMatcher.instance runtime fs l dependencies)
  = dependencies.
Proof. reflexivity. Qed.

Lemma instance_mirrors runtime fs (l : list Framework.t) dependencies idx :
  FrameworkMatcher.index l = Returns idx →
  mirrors
    (FrameworkMatcher.frameworks (FrameworkMatcher.instance runtime fs l dependencies))
    (FrameworkMatcher.prototype (FrameworkMatcher.instance runtime fs l dependencies))
    (entered l).1
  ∧ FrameworkMatcher.children (FrameworkMatcher.instance runtime fs l dependencies)
    = (entered l).2.
Proof.
  intros H. unfold FrameworkMatcher.instance. rewrite H. simpl.
  apply index_entered. exact H.
Qed.

(** On the object the constructor builds, a name reads the last rule
    that carries it. *)
Lemma instance_frameworkAt runtime fs (l : list Framework.t) dependencies idx n :
  FrameworkMatcher.index l = Returns idx →
  FrameworkMatcher.frameworkAt (FrameworkMatcher.instance runtime fs l dependencies) n =
  match (entered l).1 !! n with
  | Some g => Returns g
  | None => Throws TypeError
  end.
Proof.
  intros H. apply frameworkAt_mirrors.
  apply (instance_mirrors runtime fs l dependencies idx H).
Qed.

Lemma instance_frameworkAt_elem runtime fs (l : list Framework.t) dependencies n g :
  FrameworkMatcher.frameworkAt (FrameworkMatcher.instance runtime fs l dependencies) n
  = Returns g →
  g ∈ l ∧ Framework.name g = n.
Proof.
  destruct (FrameworkMatcher.index l) as [idx| |] eqn:Hidx.
  - rewrite (instance_frameworkAt _ _ _ _ idx n Hidx).
    destruct ((entered l).1 !! n) as [g'|] eqn:Hg; [|discriminate].
    intros [= <-]. apply entered_lookup_elem. exact Hg.
  - unfold FrameworkMatcher.instance, FrameworkMatcher.frameworkAt. rewrite Hidx. simpl.
    rewrite lookup_empty. destruct (String.eqb n "__proto__"); discriminate.
  - unfold FrameworkMatcher.instance, FrameworkMatcher.frameworkAt. rewrite Hidx. simpl.
    rewrite lookup_empty. destruct (String.eqb n "__proto__"); discriminate.
Qed.

Lemma instance_frameworkAt_NoDup runtime fs (l : list Framework.t) dependencies idx g :
  FrameworkMatcher.index l = Returns idx →
  NoDup (map Framework.name l) → g ∈ l →
  FrameworkMatcher.frameworkAt (FrameworkMatcher.instance runtime fs l dependencies)
    (Framework.name g) = Returns g.
Proof.
  intros Hidx Hnd Hg. rewrite (instance_frameworkAt _ _ _ _ idx _ Hidx).
  rewrite (entered_lookup_NoDup l g Hnd Hg). reflexivity.
Qed.

(** On the object the constructor builds, a name that is not inherited
    reads the names of the rules below it, in the order of the rule
    list; an inherited name has no rule below it and reads the inherited
    member. *)
Lemma instance_childrenAt runtime fs (l : list Framework.t) dependencies idx p :
  FrameworkMatcher.index l = Returns idx →
  FrameworkMatcher.childrenAt (FrameworkMatcher.instance runtime fs l dependencies) p =
  if inherited p then Throws TypeError
  else Returns (map Framework.name (filter (λ g, Framework.parent g = p) l)).
Proof.
  intros Hidx. unfold FrameworkMatcher.childrenAt.
  destruct (instance_mirrors runtime fs l dependencies idx Hidx) as [_ ->].
  pose proof (entered_children l p) as Hc.
  destruct ((entered l).2 !! p) as [names|] eqn:Hp; simpl in Hc.
  - assert (inherited p = false) as ->; [|rewrite Hc; reflexivity].
    assert (∃ g, g ∈ l ∧ Framework.parent g = p) as (g & Hg & <-).
    { apply entered_children_is_Some. eauto. }
    destruct (index_cases l) as [(idx' & _ & Hall)|(Hthrow & _)]; [auto|].
    rewrite Hthrow in Hidx. discriminate.
  - rewrite <- Hc. reflexivity.
Qed.

Lemma instance_childrenAt_elem runtime fs (l : list Framework.t) dependencies p names c :
  FrameworkMatcher.childrenAt (FrameworkMatcher.instance runtime fs l dependencies) p
  = Returns names →
  c ∈ names →
  ∃ child, child ∈ l ∧ Framework.name child = c ∧ Framework.parent child = p.
Proof.
  destruct (FrameworkMatcher.index l) as [idx| |] eqn:Hidx.
  - rewrite (instance_childrenAt _ _ _ _ idx p Hidx).
    destruct (inherited p); [discriminate|]. intros [= <-] Hc.
    apply list_elem_of_fmap in Hc. destruct Hc as (child & -> & Hin).
    apply list_elem_of_filter in Hin. destruct Hin as [Hp Hin]. eauto.
  - unfold FrameworkMatcher.instance, FrameworkMatcher.childrenAt. rewrite Hidx. simpl.
    rewrite lookup_empty. destruct (inherited p); [discriminate|].
    intros [= <-] Hc. inversion Hc.
  - unfold FrameworkMatcher.instance, FrameworkMatcher.childrenAt. rewrite Hidx. simpl.
    rewrite lookup_empty. destruct (inherited p); [discriminate|].
    intros [= <-] Hc. inversion Hc.
Qed.

(** *** The sanity check *)

Lemma sanityCheck_cases runtime (byName : gmap string Framework.t) prototype
    (l : list Framework.t) :
  (FrameworkMatcher.sanityCheck runtime byName prototype l = Returns tt
   ∧ ∀ f, f ∈ l → Framework.parent f = runtime
                  ∨ FrameworkMatcher.known byName prototype (Framework.parent f) = true)
  ∨ (∃ f, f ∈ l
          ∧ FrameworkMatcher.sanityCheck runtime byName prototype l
            = Throws (InvalidRuleSet (Framework.name f) (Framework.parent f))
          ∧ Framework.parent f ≠ runtime
          ∧ FrameworkMatcher.known byName prototype (Framework.parent f) = false).
Proof.
  induction l as [|g l IH]; simpl.
  - left. split; [reflexivity|]. intros f Hf. inversion Hf.
  - destruct (String.eqb_spec (Framework.parent g) runtime) as [E|E]; simpl.
    + destruct IH as [[H1 H2]|(f & Hf & H1 & H2)].
      * left. split; [exact H1|]. intros f Hf.
        apply elem_of_cons in Hf. destruct Hf as [->|Hf]; [left; exact E|auto].
      * right. exists f. split; [right; exact Hf|]. auto.
    + destruct (FrameworkMatcher.known byName prototype (Framework.parent g)) eqn:Hx; simpl.
      * destruct IH as [[H1 H2]|(f & Hf & H1 & H2)].
        -- left. split; [exact H1|]. intros f Hf.
           apply elem_of_cons in Hf. destruct Hf as [->|Hf]; [right; exact Hx|auto].
        -- right. exists f. split; [right; exact Hf|]. auto.
      * right. exists g. split; [left|]. auto.
Qed.

(** Without a rule named ["__proto__"], a name that is not inherited
    reads truthy from [this.frameworks] exactly when a rule carries it. *)
Lemma known_registered (l : list Framework.t) idx key :
  FrameworkMatcher.index l = Returns idx →
  (∀ f, f ∈ l → Framework.name f ≠ "__proto__") →
  inherited key = false →
  FrameworkMatcher.known idx.1.1 idx.1.2 key = true
  ↔ ∃ g, g ∈ l ∧ Framework.name g = key.
Proof.
  intros Hidx Hnp Hkey. destruct (index_entered l idx Hidx) as [(HF & HP & Hn) _].
  assert (key ≠ "__proto__") as Hne by (intros ->; discriminate).
  assert (idx.1.2 = None) as HP'.
  { rewrite HP. destruct ((entered l).1 !! "__proto__") as [g|] eqn:Hg; [|reflexivity].
    apply entered_lookup_elem in Hg. destruct Hg as [Hg E]. destruct (Hnp g Hg E). }
  unfold FrameworkMatcher.known. rewrite HP', (Hn key Hne), Hkey.
  apply String.eqb_neq in Hne. rewrite Hne. rewrite <- entered_registered.
  destruct ((entered l).1 !! key) as [g|]; split; eauto; try discriminate.
  intros [? ?]. discriminate.
Qed.

(** Claim C8, as amended. For a rule list in which no parent is the name
    of a member inherited from [Object.prototype] and no rule is named
    ["__proto__"], construction fails with the invalid-rule-set error
    exactly when some framework's parent is neither the runtime name nor
    the name of a framework of the list, and it succeeds exactly when
    every parent is the runtime name or a known framework name. *)
Theorem constructor_fails_iff_dangling_parent
    (runtime : string) (fs : FileSystem.t) (frameworks : list Framework.t)
    (dependencies : gmap string string) :
  (∀ framework, framework ∈ frameworks →
     inherited (Framework.parent framework) = false
     ∧ Framework.name framework ≠ "__proto__") →
  ((∃ name parent,
       FrameworkMatcher.constructor runtime fs frameworks dependencies
       = Throws (InvalidRuleSet name parent))
   ↔ ∃ framework, framework ∈ frameworks ∧ dangling runtime frameworks framework)
  ∧ ((∃ m, FrameworkMatcher.constructor runtime fs frameworks dependencies = Returns m)
     ↔ ∀ framework, framework ∈ frameworks →
         Framework.parent framework = runtime
         ∨ ∃ other, other ∈ frameworks
                    ∧ Framework.name other = Framework.parent framework).
Proof.
  intros Hplain.
  destruct (index_Returns frameworks) as [idx Hidx]; [intros f Hf; apply Hplain, Hf|].
  assert (∀ f, f ∈ frameworks →
            FrameworkMatcher.known idx.1.1 idx.1.2 (Framework.parent f) = true
            ↔ ∃ g, g ∈ frameworks ∧ Framework.name g = Framework.parent f) as Hknown.
  { intros f Hf. apply known_registered; [exact Hidx| |apply Hplain, Hf].
    intros g Hg. apply Hplain, Hg. }
  unfold FrameworkMatcher.constructor. rewrite Hidx.
  change (Returns idx ≫= ?k) with (k idx). cbv beta.
  destruct (sanityCheck_cases runtime idx.1.1 idx.1.2 frameworks)
    as [[H1 H2]|(f & Hf & H1 & Hp & Hn)]; rewrite H1; simpl; split; split.
  - intros (? & ? & ?). discriminate.
  - intros (f & Hf & Hp & Hn). destruct (H2 f Hf) as [E|E]; [contradiction|].
    apply (Hknown f Hf) in E. destruct E as (g & Hg & E).
    exfalso. exact (Hn g Hg E).
  - intros _ f Hf. destruct (H2 f Hf) as [E|E]; [left; exact E|right].
    apply (Hknown f Hf). exact E.
  - eauto.
  - intros _. exists f. split; [exact Hf|]. split; [exact Hp|].
    intros g Hg E.
    assert (FrameworkMatcher.known idx.1.1 idx.1.2 (Framework.parent f) = true) as Hx.
    { apply (Hknown f Hf). eauto. }
    rewrite Hx in Hn. discriminate.
  - eauto.
  - intros (? & ?). discriminate.
  - intros H. exfalso. destruct (H f Hf) as [E|(g & Hg & E)]; [contradiction|].
    assert (FrameworkMatcher.known idx.1.1 idx.1.2 (Framework.parent f) = true) as Hx.
    { apply (Hknown f Hf). eauto. }
    rewrite Hx in Hn. discriminate.
Qed.

(** ** [supercedes] and the elimination sweep *)

Lemma hasName_spec (have : Chain) (name : string) :
  hasName have name = true ↔
  ∃ framework, framework ∈ have ∧ Framework.name framework = name.
Proof.
  unfold hasName. rewrite existsb_exists. split.
  - intros (f & Hf & E). exists f. split; [apply list_elem_of_In; exact Hf|].
    apply String.eqb_eq. exact E.
  - intros (f & Hf & E). exists f. split; [apply list_elem_of_In; exact Hf|].
    apply String.eqb_eq. exact E.
Qed.

Lemma supercedes_spec (found have : Chain) :
  supercedes found have = true ↔
  ∃ test names name framework,
    test ∈ found ∧ Framework.canEmbed test = Some names ∧ name ∈ names
    ∧ framework ∈ have ∧ Framework.name framework = name.
Proof.
  unfold supercedes. rewrite existsb_exists. split.
  - intros (test & Ht & H). destruct (Framework.canEmbed test) as [names|] eqn:E;
      [|discriminate].
    apply existsb_exists in H. destruct H as (name & Hn & H).
    apply hasName_spec in H. destruct H as (f & Hf & Hname).
    exists test, names, name, f.
    repeat split; try assumption; apply list_elem_of_In; assumption.
  - intros (test & names & name & f & Ht & E & Hn & Hf & Hname).
    exists test. split; [apply list_elem_of_In; exact Ht|]. rewrite E.
    apply existsb_exists. exists name. split; [apply list_elem_of_In; exact Hn|].
    apply hasName_spec. eauto.
Qed.

Lemma at_of_nat {A} (a : list A) (i : nat) : at_ a (Z.of_nat i) = a !! i.
Proof.
  unfold at_. destruct (Z.ltb_spec (Z.of_nat i) 0); [lia|]. rewrite Nat2Z.id. reflexivity.
Qed.

Lemma splice_of_nat {A} (a : list A) (i : nat) : splice a (Z.of_nat i) = delete i a.
Proof.
  unfold splice. destruct (Z.ltb_spec (Z.of_nat i) 0); [lia|]. rewrite Nat2Z.id. reflexivity.
Qed.

Lemma settled_delete (a : list Chain) (i k : nat) :
  i ≤ k → settled a i → settled (delete k a) i.
Proof.
  intros Hik H p q x y Hp Hq Hx Hy.
  rewrite list_lookup_delete_lt in Hx by lia.
  destruct (decide (q < k)) as [Hqk|Hqk].
  - rewrite list_lookup_delete_lt in Hy by lia. exact (H p q x y Hp Hq Hx Hy).
  - rewrite list_lookup_delete_ge in Hy by lia. apply (H p (S q) x y Hp); [lia|assumption..].
Qed.

Lemma unrelated_sym x y : unrelated x y → unrelated y x.
Proof. intros [H1 H2]. split; assumption. Qed.

Lemma prunes_trans a b c : prunes a b → prunes b c → prunes a c.
Proof.
  induction 1 as [|a k j x y a' Hk Hx Hjk Hs _ IH]; intros Hbc; [exact Hbc|].
  eapply prunes_remove; [exact Hk|exact Hx|exact Hjk|exact Hs|]. apply IH. exact Hbc.
Qed.

Lemma prunes_sublist a b : prunes a b → sublist b a.
Proof.
  induction 1 as [|a k j x y a' _ _ _ _ _ IH]; [reflexivity|].
  etrans; [exact IH|apply sublist_delete].
Qed.

Lemma innerLoop_spec (fuel : nat) :
  ∀ (a : list Chain) (i j : nat),
    i < length a →
    length a + (length a - j) < fuel →
    settled a i →
    (∀ q x y, q < j → q ≠ i → a !! i = Some x → a !! q = Some y → unrelated x y) →
    ∃ a', prunes a a'
      ∧ ((FrameworkMatcher.innerLoop fuel a (Z.of_nat i) (Z.of_nat j)
            = Returns (a', Z.of_nat i)
          ∧ settled a' (S i) ∧ i < length a')
         ∨ (FrameworkMatcher.innerLoop fuel a (Z.of_nat i) (Z.of_nat j)
              = Returns (a', (Z.of_nat i - 1)%Z)
            ∧ settled a' i ∧ i ≤ length a' ∧ length a' < length a)).
Proof.
  induction fuel as [|fuel IH]; intros a i j Hi Hfuel Hset Hrow; [lia|].
  simpl. destruct (Z.ltb_spec (Z.of_nat j) (Z.of_nat (length a))) as [Hj|Hj].
  - destruct (Z.eqb_spec (Z.of_nat i) (Z.of_nat j)) as [E|E].
    + apply Nat2Z.inj in E. subst j.
      replace (Z.of_nat i + 1)%Z with (Z.of_nat (S i)) by lia.
      apply IH; [assumption|lia|assumption|].
      intros q x y Hq Hqi. apply Hrow; [lia|assumption].
    + assert (i ≠ j) as Hij by (intros ->; contradiction). clear E.
      rewrite !at_of_nat.
      destruct (lookup_lt_is_Some_2 a i) as [x Hx]; [lia|].
      destruct (lookup_lt_is_Some_2 a j) as [y Hy]; [lia|].
      rewrite Hx, Hy. simpl.
      assert (j < i → unrelated x y) as Hbelow.
      { intros Hlt. apply unrelated_sym. apply (Hset j i y x); [lia|lia|assumption..]. }
      destruct (supercedes x y) eqn:S1.
      * (* a[i] supersedes a[j]: a[j] is removed *)
        assert (i < j) as Hlt.
        { destruct (decide (i < j)) as [|Hge]; [assumption|].
          destruct Hbelow as [H1 _]; [lia|]. congruence. }
        replace (Z.of_nat j - 1 + 1)%Z with (Z.of_nat j) by lia.
        rewrite splice_of_nat.
        destruct (IH (delete j a) i j) as (a' & Hsub & Hres).
        -- rewrite length_delete by eauto. lia.
        -- rewrite length_delete by eauto. lia.
        -- apply settled_delete; [lia|assumption].
        -- intros q x' y' Hq Hqi Hx' Hy'.
           rewrite list_lookup_delete_lt in Hx' by lia.
           rewrite list_lookup_delete_lt in Hy' by lia.
           apply (Hrow q); assumption.
        -- exists a'. split.
           { eapply prunes_remove; [exact Hy|exact Hx|exact Hij|exact S1|exact Hsub]. }
           assert (length (delete j a) < length a)
             by (rewrite length_delete by eauto; lia).
           destruct Hres as [Hr|(H1 & H2 & H3 & H4)]; [left; exact Hr|right].
           split; [exact H1|]. split; [exact H2|]. split; [exact H3|lia].
      * simpl. destruct (supercedes y x) eqn:S2.
        -- (* a[j] supersedes a[i]: a[i] is removed and the loop is left *)
           assert (i < j) as Hlt.
           { destruct (decide (i < j)) as [|Hge]; [assumption|].
             destruct Hbelow as [_ H2]; [lia|]. congruence. }
           rewrite splice_of_nat. exists (delete i a).
           split.
           { eapply prunes_remove;
               [exact Hx|exact Hy|congruence|exact S2|apply prunes_done]. }
           right.
           split; [reflexivity|]. split; [apply settled_delete; [lia|assumption]|].
           rewrite length_delete by eauto. lia.
        -- replace (Z.of_nat j + 1)%Z with (Z.of_nat (S j)) by lia.
           apply IH; [assumption|lia|assumption|].
           intros q x' y' Hq Hqi Hx' Hy'.
           destruct (decide (q = j)) as [->|Hne].
           ++ rewrite Hx in Hx'. rewrite Hy in Hy'.
              injection Hx' as <-. injection Hy' as <-. split; assumption.
           ++ apply (Hrow q); [lia|assumption..].
  - exists a. split; [apply prunes_done|]. left. split; [reflexivity|].
    split; [|assumption].
    intros p q x y Hp Hq Hx Hy.
    destruct (decide (p = i)) as [->|Hne].
    + apply (Hrow q); [|assumption..].
      apply lookup_lt_Some in Hy. lia.
    + apply (Hset p q); [lia|assumption..].
Qed.

Lemma outerLoop_spec (fuel : nat) :
  ∀ (a : list Chain) (i : nat),
    i ≤ length a →
    length a + (length a - i) < fuel →
    settled a i →
    ∃ a', FrameworkMatcher.outerLoop fuel a (Z.of_nat i) = Returns a'
          ∧ prunes a a' ∧ settled a' (length a').
Proof.
  induction fuel as [|fuel IH]; intros a i Hi Hfuel Hset; [lia|].
  simpl. destruct (Z.ltb_spec (Z.of_nat i) (Z.of_nat (length a))) as [Hlt|Hge].
  - destruct (innerLoop_spec (length a + (length a + 0) + 1) a i 0)
      as (a' & Hsub & Hres); [lia|lia|assumption|intros; lia|].
    change (Z.of_nat 0) with 0%Z in Hres.
    pose proof (sublist_length _ _ (prunes_sublist _ _ Hsub)) as Hlen.
    destruct Hres as [(-> & Hs & Hi')|(-> & Hs & Hi' & Hshort)]; simpl.
    + replace (Z.of_nat i + 1)%Z with (Z.of_nat (S i)) by lia.
      destruct (IH a' (S i)) as (r & Hr & Hsub' & Hfin); [lia|lia|assumption|].
      exists r. split; [exact Hr|]. split; [eapply prunes_trans; eassumption|assumption].
    + replace (Z.of_nat i - 1 + 1)%Z with (Z.of_nat i) by lia.
      destruct (IH a' i) as (r & Hr & Hsub' & Hfin); [lia|lia|assumption|].
      exists r. split; [exact Hr|]. split; [eapply prunes_trans; eassumption|assumption].
  - exists a. split; [reflexivity|]. split; [apply prunes_done|].
    replace (length a) with i by lia. assumption.
Qed.

(** The sweep always finishes: it never reads outside the array and never
    runs out of iterations. Chains are removed one at a time, each one
    superseded by a chain present at that moment; the survivors are a
    sub-sequence of the candidates, and no survivor supersedes another. *)
Lemma eliminate_spec (allMatches : list Chain) :
  ∃ survivors,
    FrameworkMatcher.eliminate allMatches = Returns survivors
    ∧ sublist survivors allMatches
    ∧ ∀ p q x y, p ≠ q → survivors !! p = Some x → survivors !! q = Some y →
        supercedes x y = false.
Proof.
  unfold FrameworkMatcher.eliminate.
  destruct (outerLoop_spec (2 * length allMatches + 1) allMatches 0)
    as (r & Hr & Hsub & Hfin); [lia|lia|intros p q x y Hp; lia|].
  exists r. split; [exact Hr|]. split; [exact (prunes_sublist _ _ Hsub)|].
  intros p q x y Hpq Hx Hy.
  destruct (Hfin p q x y) as [H _]; [|congruence|assumption..|exact H].
  apply lookup_lt_Some in Hx. exact Hx.
Qed.

Lemma eliminate_prunes (allMatches : list Chain) :
  ∃ survivors,
    FrameworkMatcher.eliminate allMatches = Returns survivors
    ∧ prunes allMatches survivors.
Proof.
  unfold FrameworkMatcher.eliminate.
  destruct (outerLoop_spec (2 * length allMatches + 1) allMatches 0)
    as (r & Hr & Hsub & _); [lia|lia|intros p q x y Hp; lia|].
  exists r. split; assumption.
Qed.

(** ** Chain search: unfolding and basic facts *)

Lemma gather_app visit (names : list string) (paths : list Chain) :
  ∀ results,
    Forall2 (λ name res, visit name = Returns res) names results →
    FrameworkMatcher.gather visit names paths = Returns (paths ++ concat results).
Proof.
  intros results H. revert paths.
  induction H as [|name res names results Hv _ IH]; intros paths; simpl.
  - rewrite app_nil_r. reflexivity.
  - rewrite Hv. simpl. rewrite app_assoc.
    destruct res; [rewrite app_nil_r|]; apply IH.
Qed.

Lemma gather_inv visit (names : list string) :
  ∀ (paths r : list Chain),
    FrameworkMatcher.gather visit names paths = Returns r →
    ∃ results, Forall2 (λ name res, visit name = Returns res) names results
               ∧ r = paths ++ concat results.
Proof.
  induction names as [|name names IH]; intros paths r H; simpl in H.
  - injection H as <-. exists []. split; [constructor|]. rewrite app_nil_r. reflexivity.
  - destruct (visit name) as [res| |] eqn:Hv; simpl in H; try discriminate.
    apply IH in H. destruct H as (results & HF & ->).
    exists (res :: results). split; [constructor; assumption|].
    simpl. rewrite app_assoc. destruct res; [rewrite app_nil_r|]; reflexivity.
Qed.

Lemma descend_framework visit runtime framework name :
  framework ≠ runtime →
  FrameworkMatcher.descend visit runtime framework name = visit name.
Proof.
  intros H. unfold FrameworkMatcher.descend.
  apply String.eqb_neq in H. rewrite H. reflexivity.
Qed.

Lemma descend_child visit runtime framework name :
  name ≠ runtime →
  FrameworkMatcher.descend visit runtime framework name = visit name.
Proof.
  intros H. unfold FrameworkMatcher.descend.
  apply String.eqb_neq in H. rewrite H, andb_false_r. reflexivity.
Qed.

Lemma descend_Returns visit runtime framework name res :
  FrameworkMatcher.descend visit runtime framework name = Returns res →
  visit name = Returns res ∧ (framework = runtime → name ≠ runtime).
Proof.
  unfold FrameworkMatcher.descend.
  destruct (String.eqb_spec framework runtime) as [E|E];
    destruct (String.eqb_spec name runtime) as [E'|E']; simpl;
    try discriminate; intros H; (split; [exact H|]); intros; congruence.
Qed.

Lemma descend_Forall2 visit runtime framework (names : list string) results :
  Forall2 (λ name res,
      FrameworkMatcher.descend visit runtime framework name = Returns res)
    names results →
  Forall2 (λ name res, visit name = Returns res) names results
  ∧ (framework = runtime → runtime ∉ names).
Proof.
  induction 1 as [|name res names results H _ [IH1 IH2]].
  - split; [constructor|]. intros _ Hin. inversion Hin.
  - apply descend_Returns in H. destruct H as [H1 H2].
    split; [constructor; assumption|].
    intros E Hin. apply elem_of_cons in Hin. destruct Hin as [Hin|Hin].
    + apply (H2 E). symmetry. exact Hin.
    + exact (IH2 E Hin).
Qed.

Lemma Forall2_descend visit runtime framework (names : list string) results :
  (framework = runtime → runtime ∉ names) →
  Forall2 (λ name res, visit name = Returns res) names results →
  Forall2 (λ name res,
      FrameworkMatcher.descend visit runtime framework name = Returns res)
    names results.
Proof.
  intros Hrt H. induction H as [|name res names results H _ IH]; [constructor|].
  constructor.
  - destruct (decide (framework = runtime)) as [E|E].
    + rewrite descend_child; [exact H|]. intros ->. apply (Hrt E). left.
    + rewrite descend_framework; [exact H|exact E].
  - apply IH. intros E Hin. apply (Hrt E). right. exact Hin.
Qed.

Lemma matchHelper_S fuel m completion framework :
  FrameworkMatcher.matchHelper (S fuel) m completion framework =
  (pruned ← (if negb (String.eqb framework (FrameworkMatcher.runtime m)) then
               self ← FrameworkMatcher.frameworkAt m framework;
               Returns (negb (FrameworkMatcher.dependenciesMatch m self)
                        || negb (FrameworkMatcher.filesMatch m self))
             else Returns false);
   if pruned : bool then Returns []
   else
     names ← FrameworkMatcher.childrenAt m framework;
     paths ← FrameworkMatcher.gather
       (FrameworkMatcher.descend (FrameworkMatcher.matchHelper fuel m completion)
          (FrameworkMatcher.runtime m) framework)
       (completion framework names) [];
     if String.eqb framework (FrameworkMatcher.runtime m) then Returns paths
     else
       match paths with
       | [] => self ← FrameworkMatcher.frameworkAt m framework; Returns [[self]]
       | _ => self ← FrameworkMatcher.frameworkAt m framework;
              Returns (map (λ head, head ++ [self]) paths)
       end).
Proof. reflexivity. Qed.

Lemma pruned_localMatch m self :
  negb (FrameworkMatcher.dependenciesMatch m self)
  || negb (FrameworkMatcher.filesMatch m self)
  = negb (FrameworkMatcher.localMatch m self).
Proof.
  unfold FrameworkMatcher.localMatch.
  destruct (FrameworkMatcher.dependenciesMatch m self),
           (FrameworkMatcher.filesMatch m self); reflexivity.
Qed.


(** At the runtime the children's chains are passed on unchanged. *)
Lemma matchHelper_runtime fuel m completion names results :
  FrameworkMatcher.childrenAt m (FrameworkMatcher.runtime m) = Returns names →
  FrameworkMatcher.runtime m ∉ completion (FrameworkMatcher.runtime m) names →
  Forall2 (λ name res,
      FrameworkMatcher.matchHelper fuel m completion name = Returns res)
    (completion (FrameworkMatcher.runtime m) names) results →
  FrameworkMatcher.matchHelper (S fuel) m completion (FrameworkMatcher.runtime m)
  = Returns (concat results).
Proof.
  intros Hc Hrt H. rewrite matchHelper_S. rewrite String.eqb_refl. simpl.
  rewrite Hc. simpl.
  rewrite (gather_app _ _ _ results); [reflexivity|].
  apply Forall2_descend; [intros _; exact Hrt|exact H].
Qed.

(** A framework whose local predicate fails yields no chain. *)
Lemma matchHelper_pruned fuel m completion framework self :
  framework ≠ FrameworkMatcher.runtime m →
  FrameworkMatcher.frameworkAt m framework = Returns self →
  FrameworkMatcher.localMatch m self = false →
  FrameworkMatcher.matchHelper (S fuel) m completion framework = Returns [].
Proof.
  intros Hrt Hself Hlocal. rewrite matchHelper_S.
  apply String.eqb_neq in Hrt. rewrite Hrt. simpl.
  rewrite Hself. simpl.
  rewrite pruned_localMatch, Hlocal. reflexivity.
Qed.

Lemma matchHelper_node fuel m completion framework self names results :
  framework ≠ FrameworkMatcher.runtime m →
  FrameworkMatcher.frameworkAt m framework = Returns self →
  FrameworkMatcher.localMatch m self = true →
  FrameworkMatcher.childrenAt m framework = Returns names →
  Forall2 (λ name res,
      FrameworkMatcher.matchHelper fuel m completion name = Returns res)
    (completion framework names) results →
  FrameworkMatcher.matchHelper (S fuel) m completion framework =
  Returns (match concat results with
           | [] => [[self]]
           | paths => map (λ head, head ++ [self]) paths
           end).
Proof.
  intros Hrt Hself Hlocal Hc H. rewrite matchHelper_S.
  pose proof Hrt as Hrt'. apply String.eqb_neq in Hrt'. rewrite Hrt'. simpl.
  rewrite Hself. simpl.
  rewrite pruned_localMatch, Hlocal. simpl. rewrite Hc. simpl.
  rewrite (gather_app _ _ _ results);
    [|apply Forall2_descend; [intros E; contradiction|exact H]].
  simpl. destruct (concat results); reflexivity.
Qed.

(** Case analysis of a search that returned. *)
Lemma matchHelper_inv fuel m completion framework all :
  FrameworkMatcher.matchHelper (S fuel) m completion framework = Returns all →
  (framework = FrameworkMatcher.runtime m
   ∧ ∃ names results,
       FrameworkMatcher.childrenAt m framework = Returns names
       ∧ (FrameworkMatcher.runtime m ∉ completion framework names)
       ∧ Forall2 (λ name res,
           FrameworkMatcher.matchHelper fuel m completion name = Returns res)
         (completion framework names) results
       ∧ all = concat results)
  ∨ (framework ≠ FrameworkMatcher.runtime m
     ∧ ∃ self, FrameworkMatcher.frameworkAt m framework = Returns self
       ∧ ((FrameworkMatcher.localMatch m self = false ∧ all = [])
          ∨ (FrameworkMatcher.localMatch m self = true
             ∧ ∃ names results,
                 FrameworkMatcher.childrenAt m framework = Returns names
                 ∧ Forall2 (λ name res,
                     FrameworkMatcher.matchHelper fuel m completion name = Returns res)
                   (completion framework names) results
                 ∧ all = match concat results with
                         | [] => [[self]]
                         | paths => map (λ head, head ++ [self]) paths
                         end))).
Proof.
  intros H.
  destruct (String.eqb_spec framework (FrameworkMatcher.runtime m)) as [E|E].
  - left. split; [exact E|]. rewrite matchHelper_S in H.
    rewrite E, String.eqb_refl in H. simpl in H. rewrite <- E in H.
    destruct (FrameworkMatcher.childrenAt m framework) as [names| |] eqn:Hc;
      try discriminate.
    simpl in H.
    destruct (FrameworkMatcher.gather _ _ _) as [paths| |] eqn:G; try discriminate.
    simpl in H. injection H as <-.
    apply gather_inv in G. destruct G as (results & HF & ->).
    apply descend_Forall2 in HF. destruct HF as [HF Hrt].
    exists names, results. split; [reflexivity|].
    split; [rewrite <- E; apply Hrt; reflexivity|]. split; [exact HF|reflexivity].
  - right. split; [exact E|].
    destruct (FrameworkMatcher.frameworkAt m framework) as [self| |] eqn:Hself.
    + exists self. split; [reflexivity|].
      destruct (FrameworkMatcher.localMatch m self) eqn:Hlocal.
      * right. split; [reflexivity|].
        rewrite matchHelper_S in H. pose proof E as E'.
        apply String.eqb_neq in E'. rewrite E' in H.
        simpl in H. rewrite Hself in H.
        simpl in H. rewrite pruned_localMatch, Hlocal in H. simpl in H.
        destruct (FrameworkMatcher.childrenAt m framework) as [names| |] eqn:Hc;
          try discriminate.
        simpl in H.
        destruct (FrameworkMatcher.gather _ _ _) as [paths| |] eqn:G; try discriminate.
        apply gather_inv in G. destruct G as (results & HF & ->).
        apply descend_Forall2 in HF. destruct HF as [HF _].
        exists names, results. split; [reflexivity|]. split; [exact HF|]. simpl in H.
        destruct (concat results); simpl in H; injection H as <-; reflexivity.
      * left. split; [reflexivity|].
        rewrite (matchHelper_pruned fuel m completion framework self) in H;
          [|assumption..].
        injection H as <-. reflexivity.
    + rewrite matchHelper_S in H. apply String.eqb_neq in E. rewrite E in H.
      simpl in H. rewrite Hself in H. discriminate.
    + rewrite matchHelper_S in H. apply String.eqb_neq in E. rewrite E in H.
      simpl in H. rewrite Hself in H. discriminate.
Qed.


Lemma matchHelper_nonempty fuel :
  ∀ m completion framework all,
    FrameworkMatcher.matchHelper fuel m completion framework = Returns all →
    Forall (λ chain, chain ≠ []) all.
Proof.
  induction fuel as [|fuel IH]; intros m completion framework all H; [discriminate|].
  assert (∀ names results,
    Forall2 (λ name res,
      FrameworkMatcher.matchHelper fuel m completion name = Returns res) names results →
    Forall (λ chain : Chain, chain ≠ []) (concat results)) as Hres.
  { intros names results HF. induction HF as [|name res names results Hn _ IHF]; simpl.
    - constructor.
    - apply Forall_app. split; [|exact IHF]. exact (IH _ _ _ _ Hn). }
  apply matchHelper_inv in H.
  destruct H as [(-> & names & results & Hc & Hrt & HF & ->)
                |(Hne & self & Hself
                  & [(Hl & ->)|(Hl & names & results & Hc & HF & ->)])].
  - exact (Hres _ _ HF).
  - constructor.
  - specialize (Hres _ _ HF). destruct (concat results) as [|c cs].
    + constructor; [discriminate|constructor].
    + apply Forall_forall. intros chain Hin.
      apply list_elem_of_fmap in Hin. destruct Hin as (head & -> & _).
      destruct head; discriminate.
Qed.
(** ** The matcher under construction, and what [match] returns *)

Lemma constructor_inv runtime fs (frameworks : list Framework.t) dependencies m :
  FrameworkMatcher.constructor runtime fs frameworks dependencies = Returns m →
  m = FrameworkMatcher.instance runtime fs frameworks dependencies
  ∧ ∃ idx, FrameworkMatcher.index frameworks = Returns idx.
Proof.
  unfold FrameworkMatcher.constructor.
  destruct (FrameworkMatcher.index frameworks) as [idx| |]; try discriminate.
  change (Returns idx ≫= ?k) with (k idx). cbv beta.
  destruct (FrameworkMatcher.sanityCheck _ _ _ _) as [[]| |]; simpl; try discriminate.
  intros [= <-]. split; [reflexivity|]. eauto.
Qed.



Lemma leaves_of_nonempty (chains : list Chain) :
  Forall (λ chain, chain ≠ []) chains →
  ∃ leaves, mapM FrameworkMatcher.leaf chains = Returns leaves
    ∧ Forall2 (λ chain leaf,
         ∃ framework, chain !! 0 = Some framework
                      ∧ Framework.name framework = leaf) chains leaves.
Proof.
  induction 1 as [|chain chains Hne _ (leaves & Hl & HF)].
  - exists []. split; [reflexivity|constructor].
  - destruct chain as [|f rest]; [contradiction|].
    exists (Framework.name f :: leaves). split.
    + simpl. rewrite Hl. reflexivity.
    + constructor; [|exact HF]. exists f. split; reflexivity.
Qed.

(** Claim C3. Once the search has returned its candidates, the
    elimination sweep finishes, and [match] returns the empty chain when
    no chain survives, returns the chain when exactly one survives, and
    otherwise fails with the ambiguous-framework error that lists the name
    of the framework at index 0 of every surviving chain. *)
Theorem match_decides_on_survivors
    (fuel : nat) (m : FrameworkMatcher.t)
    (completion : string → list string → list string) (allMatches : list Chain) :
  FrameworkMatcher.matchHelper fuel m completion (FrameworkMatcher.runtime m)
  = Returns allMatches →
  ∃ survivors,
    FrameworkMatcher.eliminate allMatches = Returns survivors
    ∧ match survivors with
      | [] => FrameworkMatcher.match_ fuel m completion = Returns []
      | [chain] => FrameworkMatcher.match_ fuel m completion = Returns chain
      | _ :: _ :: _ =>
          ∃ leaves,
            FrameworkMatcher.match_ fuel m completion
            = Throws (AmbiguousFramework leaves)
            ∧ Forall2 (λ chain leaf,
                 ∃ framework, chain !! 0 = Some framework
                              ∧ Framework.name framework = leaf)
                survivors leaves
      end.
Proof.
  intros Hall.
  destruct (eliminate_spec allMatches) as (survivors & Hel & Hsub & _).
  exists survivors. split; [exact Hel|].
  unfold FrameworkMatcher.match_. rewrite Hall. simpl. rewrite Hel. simpl.
  destruct survivors as [|c1 [|c2 rest]]; [reflexivity..|].
  assert (Forall (λ chain : Chain, chain ≠ []) (c1 :: c2 :: rest)) as Hne.
  { apply Forall_forall. intros chain Hin.
    pose proof (matchHelper_nonempty _ _ _ _ _ Hall) as Hn.
    rewrite Forall_forall in Hn. apply Hn.
    eapply elem_of_sublist; eassumption. }
  destruct (leaves_of_nonempty _ Hne) as (leaves & Hl & HF).
  exists leaves. split; [|exact HF].
  unfold FrameworkMatcher.decide_. rewrite Hl. reflexivity.
Qed.

(** ** Rule sets that are forests *)

Lemma elem_of_concat {A} (x : A) (ls : list (list A)) :
  x ∈ concat ls ↔ ∃ l, x ∈ l ∧ l ∈ ls.
Proof.
  rewrite list_elem_of_In, in_concat. split.
  - intros (l & Hl & Hx). exists l. rewrite !list_elem_of_In. auto.
  - intros (l & Hx & Hl). exists l. rewrite <- !list_elem_of_In. auto.
Qed.

Lemma descendant_inv frameworks D A :
  descendant frameworks D A →
  ∃ M, M ∈ frameworks ∧ Framework.parent D = Framework.name M
       ∧ (M = A ∨ descendant frameworks M A).
Proof.
  intros H. destruct H as [D F _ HF E|D M F _ HM E Hrest].
  - exists F. auto.
  - exists M. auto.
Qed.

Section Forest.
Variable runtime : string.
Variable frameworks : list Framework.t.
Hypothesis Hforest : forest runtime frameworks.

Lemma forest_name_inj A B :
  A ∈ frameworks → B ∈ frameworks → Framework.name A = Framework.name B → A = B.
Proof.
  intros HA HB E. destruct Hforest as [Hnd _].
  pose proof (entered_lookup_NoDup frameworks A Hnd HA) as H1.
  pose proof (entered_lookup_NoDup frameworks B Hnd HB) as H2.
  rewrite E in H1. congruence.
Qed.

Lemma forest_not_runtime A : A ∈ frameworks → Framework.name A ≠ runtime.
Proof.
  intros HA E. destruct Hforest as [_ Hrt]. apply Hrt. rewrite <- E.
  apply (list_elem_of_fmap_2 Framework.name). exact HA.
Qed.

Lemma depth_functional name d :
  depth runtime frameworks name d →
  ∀ d', depth runtime frameworks name d' → d = d'.
Proof.
  induction 1 as [|A d HA _ IH]; intros d' H'.
  - inversion H' as [|B e HB _ E]; [reflexivity|].
    exfalso. exact (forest_not_runtime B HB E).
  - inversion H' as [E|B e HB Hd E].
    + exfalso. symmetry in E. exact (forest_not_runtime A HA E).
    + apply forest_name_inj in E; [|assumption..]. subst B.
      f_equal. apply IH. exact Hd.
Qed.

(** The names on the way up from a node are pairwise distinct, hence no
    node lies deeper than the number of frameworks. *)
Lemma depth_path name d :
  depth runtime frameworks name d →
  ∃ path : list string,
    length path = d ∧ NoDup path
    ∧ (∀ v, v ∈ path →
         v ∈ map Framework.name frameworks
         ∧ ∃ e, e ≤ d ∧ depth runtime frameworks v e).
Proof.
  induction 1 as [|A d HA Hd (path & Hlen & Hnd & Hpath)].
  - exists []. split; [reflexivity|]. split; [constructor|].
    intros v Hv. inversion Hv.
  - exists (Framework.name A :: path). split; [simpl; congruence|]. split.
    + apply NoDup_cons. split; [|exact Hnd]. intros Hin.
      destruct (Hpath _ Hin) as (_ & e & He & Hde).
      assert (S d = e); [|lia].
      apply (depth_functional (Framework.name A));
        [apply depth_framework; assumption|exact Hde].
    + intros v Hv. apply elem_of_cons in Hv. destruct Hv as [->|Hv].
      * split; [apply (list_elem_of_fmap_2 Framework.name); exact HA|].
        exists (S d). split; [lia|]. apply depth_framework; assumption.
      * destruct (Hpath v Hv) as (H1 & e & He & Hde).
        split; [exact H1|]. exists e. split; [lia|exact Hde].
Qed.

Lemma depth_bound name d :
  depth runtime frameworks name d → d ≤ length frameworks.
Proof.
  intros H. destruct (depth_path name d H) as (path & <- & Hnd & Hpath).
  rewrite <- (length_map Framework.name frameworks).
  apply submseteq_length. apply NoDup_submseteq; [exact Hnd|].
  intros v Hv. apply Hpath. exact Hv.
Qed.

Variable fs : FileSystem.t.
Variable dependencies : gmap string string.
Variable completion : string → list string → list string.
Hypothesis Hfair : fair completion.

Local Abbreviation m := (FrameworkMatcher.instance runtime fs frameworks dependencies).
Local Abbreviation reachable := (reachable m frameworks).
Local Abbreviation ancestorsMatch := (ancestorsMatch m frameworks).

Lemma forest_gather_total (visit : string → Outcome (list Chain)) names :
  (∀ name, name ∈ names → ∃ res, visit name = Returns res) →
  ∃ results, Forall2 (λ name res, visit name = Returns res) names results.
Proof.
  induction names as [|name names IH]; intros H.
  - exists []. constructor.
  - destruct (H name) as [res Hres]; [left|].
    destruct IH as [results HF]; [intros n Hn; apply H; right; exact Hn|].
    exists (res :: results). constructor; assumption.
Qed.

Lemma forest_frameworkAt idx A :
  FrameworkMatcher.index frameworks = Returns idx →
  A ∈ frameworks →
  FrameworkMatcher.frameworkAt m (Framework.name A) = Returns A.
Proof.
  intros Hidx HA.
  apply (instance_frameworkAt_NoDup _ _ _ _ idx); [exact Hidx|apply Hforest|exact HA].
Qed.

Lemma forest_runtime_not_child names :
  FrameworkMatcher.childrenAt m runtime = Returns names →
  runtime ∉ completion runtime names.
Proof.
  intros Hc Hin. rewrite (Hfair runtime _) in Hin.
  destruct (instance_childrenAt_elem _ _ _ _ _ _ _ Hc Hin) as (child & Hchild & E & _).
  exact (forest_not_runtime child Hchild E).
Qed.

(** On an ordinary forest the search below a node of depth [d] returns,
    and needs at most [length frameworks + 1 - d] levels of recursion. *)
Lemma forest_matchHelper_total fuel :
  ordinary runtime frameworks →
  ∀ name d,
    depth runtime frameworks name d →
    length frameworks < d + fuel →
    ∃ all, FrameworkMatcher.matchHelper fuel m completion name = Returns all.
Proof.
  intros [Hrt Hord]. rewrite Forall_forall in Hord.
  destruct (index_Returns frameworks) as [idx Hidx];
    [intros f Hf; apply Hord, Hf|].
  induction fuel as [|fuel IH]; intros name d Hd Hfuel.
  { apply depth_bound in Hd. lia. }
  assert (inherited name = false) as Hname.
  { inversion Hd as [E|A e HA _ E]; [rewrite <- E; exact Hrt|]. apply Hord, HA. }
  pose proof (instance_childrenAt runtime fs frameworks dependencies idx name Hidx) as Hc.
  rewrite Hname in Hc.
  assert (∃ results,
    Forall2 (λ child res,
        FrameworkMatcher.matchHelper fuel m completion child = Returns res)
      (completion name
         (map Framework.name (filter (λ g, Framework.parent g = name) frameworks)))
      results) as [results HF].
  { apply forest_gather_total. intros c Hin. rewrite (Hfair name _) in Hin.
    destruct (instance_childrenAt_elem _ _ _ _ _ _ _ Hc Hin) as (child & Hchild & <- & Hp).
    apply (IH _ (S d)); [|lia].
    apply depth_framework; [exact Hchild|]. rewrite Hp. exact Hd. }
  destruct (decide (name = runtime)) as [->|Hne].
  - exists (concat results).
    apply (matchHelper_runtime fuel m completion _ results Hc); [|exact HF].
    apply forest_runtime_not_child. exact Hc.
  - inversion Hd as [E|A e HA _ E]; [congruence|]. subst name.
    pose proof (forest_frameworkAt idx A Hidx HA) as Hself.
    destruct (FrameworkMatcher.localMatch m A) eqn:Hlocal.
    + eexists. apply (matchHelper_node fuel m completion _ A _ results Hne Hself Hlocal Hc).
      exact HF.
    + exists []. apply (matchHelper_pruned _ _ _ _ A); assumption.
Qed.

Lemma forest_child_ancestorsMatch name child :
  ancestorsMatch name →
  (name ≠ runtime → ∀ N, N ∈ frameworks → Framework.name N = name →
     FrameworkMatcher.localMatch m N = true) →
  child ∈ frameworks → Framework.parent child = name →
  ancestorsMatch (Framework.name child).
Proof.
  intros Hanc Hself Hin Hp. right. exists child.
  split; [exact Hin|]. split; [reflexivity|].
  intros A HA. apply descendant_inv in HA.
  destruct HA as (M & HM & E & Hrest). rewrite Hp in E.
  destruct Hanc as [Hrt|(N & HN & HNn & Hup)].
  - change (name = runtime) in Hrt.
    exfalso. apply (forest_not_runtime M HM). congruence.
  - assert (name ≠ runtime) as Hne.
    { rewrite <- HNn. apply forest_not_runtime. exact HN. }
    assert (M = N) as ->.
    { apply forest_name_inj; [assumption..|]. congruence. }
    destruct Hrest as [<-|Hrest].
    + apply Hself; [exact Hne|exact HN|exact HNn].
    + apply Hup. exact Hrest.
Qed.

Lemma forest_matchHelper_reachable fuel :
  ∀ name all,
    ancestorsMatch name →
    FrameworkMatcher.matchHelper fuel m completion name = Returns all →
    ∀ chain G, chain ∈ all → G ∈ chain → reachable G.
Proof.
  induction fuel as [|fuel IH]; intros name all Hanc H; [discriminate|].
  assert (∀ names results,
    (name ≠ runtime → ∀ N, N ∈ frameworks → Framework.name N = name →
       FrameworkMatcher.localMatch m N = true) →
    FrameworkMatcher.childrenAt m name = Returns names →
    Forall2 (λ child res,
        FrameworkMatcher.matchHelper fuel m completion child = Returns res)
      (completion name names) results →
    ∀ chain G, chain ∈ concat results → G ∈ chain → reachable G) as Hchildren.
  { intros names results Hself Hnames HF chain G Hchain HG.
    apply elem_of_concat in Hchain. destruct Hchain as (res & Hchain & Hres).
    apply list_elem_of_lookup in Hres. destruct Hres as [k Hk].
    destruct (Forall2_lookup_r _ _ _ _ _ HF Hk) as (c & Hc & Hcall).
    assert (c ∈ names) as Hc'.
    { rewrite <- (Hfair name _). apply list_elem_of_lookup. eauto. }
    destruct (instance_childrenAt_elem _ _ _ _ _ _ _ Hnames Hc')
      as (child & Hin & <- & Hp).
    apply (IH (Framework.name child) res) with (chain := chain); [|assumption..].
    apply (forest_child_ancestorsMatch name); assumption. }
  apply matchHelper_inv in H.
  destruct H as [(Hrt & names & results & Hnames & _ & HF & ->)
                |(Hne & self & Hself
                  & [(Hl & ->)|(Hl & names & results & Hnames & HF & ->)])].
  - apply Hchildren with (names := names) (results := results); [|assumption..].
    intros Hne. contradiction.
  - intros chain G Hchain. inversion Hchain.
  - apply instance_frameworkAt_elem in Hself. destruct Hself as [Hin Hname].
    assert (reachable self) as Hgood.
    { split; [exact Hin|]. split; [exact Hl|].
      destruct Hanc as [->|(N & HN & HNn & Hup)]; [contradiction|].
      assert (N = self) as -> by (apply forest_name_inj; [assumption..|congruence]).
      exact Hup. }
    assert (∀ chain G, chain ∈ concat results → G ∈ chain → reachable G) as Hbelow.
    { apply (Hchildren names); [|exact Hnames|exact HF]. intros _ N HN HNn.
      assert (N = self) as -> by (apply forest_name_inj; [assumption..|congruence]).
      exact Hl. }
    intros chain G Hchain HG. destruct (concat results) as [|c cs].
    + apply list_elem_of_singleton in Hchain. subst chain.
      apply list_elem_of_singleton in HG. subst G. exact Hgood.
    + apply list_elem_of_fmap in Hchain. destruct Hchain as (head & -> & Hhead).
      apply elem_of_app in HG. destruct HG as [HG|HG].
      * exact (Hbelow head G Hhead HG).
      * apply list_elem_of_singleton in HG. subst G. exact Hgood.
Qed.
End Forest.
(** ** Chains on a forest *)

Lemma ascends_snoc (chain : Chain) (top above : Framework.t) :
  ascends chain top →
  Framework.parent top = Framework.name above →
  ascends (chain ++ [above]) above.
Proof.
  induction chain as [|f rest IH]; intros Hasc Hp; [destruct Hasc|].
  destruct rest as [|g rest].
  - simpl in Hasc. subst f. simpl. auto.
  - destruct Hasc as [Hfg Hrest]. split; [exact Hfg|]. exact (IH Hrest Hp).
Qed.

Lemma ascends_lookup (chain : Chain) (top : Framework.t) :
  ascends chain top →
  last chain = Some top
  ∧ ∀ i f g, chain !! i = Some f → chain !! S i = Some g →
      Framework.parent f = Framework.name g.
Proof.
  induction chain as [|f rest IH]; intros Hasc; [destruct Hasc|].
  destruct rest as [|g rest].
  - simpl in Hasc. subst f. split; [reflexivity|]. intros i f g _ H.
    destruct i; discriminate.
  - destruct Hasc as [Hfg Hrest]. destruct (IH Hrest) as [Hlast Hlinks].
    split; [rewrite last_cons_cons; exact Hlast|].
    intros [|i] f' g' Hf Hg.
    + injection Hf as <-. injection Hg as <-. exact Hfg.
    + exact (Hlinks i f' g' Hf Hg).
Qed.

Section ForestChains.
Variable runtime : string.
Variable frameworks : list Framework.t.
Hypothesis Hforest : forest runtime frameworks.
Variable fs : FileSystem.t.
Variable dependencies : gmap string string.
Variable completion : string → list string → list string.
Hypothesis Hfair : fair completion.

Local Abbreviation m := (FrameworkMatcher.instance runtime fs frameworks dependencies).

Lemma forest_child_of name names res k results :
  FrameworkMatcher.childrenAt m name = Returns names →
  Forall2 (λ child res,
      FrameworkMatcher.matchHelper k m completion child = Returns res)
    (completion name names) results →
  res ∈ results →
  ∃ child, child ∈ frameworks ∧ Framework.parent child = name
           ∧ FrameworkMatcher.matchHelper k m completion (Framework.name child)
             = Returns res.
Proof.
  intros Hnames HF Hres. apply list_elem_of_lookup in Hres. destruct Hres as [i Hi].
  destruct (Forall2_lookup_r _ _ _ _ _ HF Hi) as (c & Hc & Hcall).
  assert (c ∈ names) as Hc'.
  { rewrite <- (Hfair name _). apply list_elem_of_lookup. eauto. }
  destruct (instance_childrenAt_elem _ _ _ _ _ _ _ Hnames Hc')
    as (child & Hin & <- & Hp).
  exists child. auto.
Qed.

Lemma forest_result_of_child idx name names child k results :
  FrameworkMatcher.index frameworks = Returns idx →
  FrameworkMatcher.childrenAt m name = Returns names →
  Forall2 (λ c res,
      FrameworkMatcher.matchHelper k m completion c = Returns res)
    (completion name names) results →
  child ∈ frameworks → Framework.parent child = name →
  ∃ res, res ∈ results
         ∧ FrameworkMatcher.matchHelper k m completion (Framework.name child)
           = Returns res.
Proof.
  intros Hidx Hnames HF Hin Hp.
  assert (Framework.name child ∈ completion name names) as Hc.
  { rewrite (Hfair name _).
    rewrite (instance_childrenAt _ _ _ _ idx name Hidx) in Hnames.
    destruct (inherited name); [discriminate|]. injection Hnames as <-.
    apply (list_elem_of_fmap_2 Framework.name). apply list_elem_of_filter. auto. }
  apply list_elem_of_lookup in Hc. destruct Hc as [i Hi].
  destruct (Forall2_lookup_l _ _ _ _ _ HF Hi) as (res & Hres & Hcall).
  exists res. split; [|exact Hcall]. apply list_elem_of_lookup. eauto.
Qed.

Lemma forest_matchHelper_ascends fuel :
  ∀ name allMatches chain,
    FrameworkMatcher.matchHelper fuel m completion name = Returns allMatches →
    chain ∈ allMatches →
    ∃ top, ascends chain top ∧ top ∈ frameworks
           ∧ (name = runtime → Framework.parent top = runtime)
           ∧ (name ≠ runtime → Framework.name top = name).
Proof.
  induction fuel as [|fuel IH]; intros name allMatches chain H Hchain;
    [discriminate|].
  apply matchHelper_inv in H.
  destruct H as [(Hrt & names & results & Hnames & _ & HF & ->)
                |(Hne & self & Hself
                  & [(_ & ->)|(_ & names & results & Hnames & HF & ->)])].
  - change (name = runtime) in Hrt.
    apply elem_of_concat in Hchain. destruct Hchain as (res & Hchain & Hres).
    destruct (forest_child_of _ _ _ _ _ Hnames HF Hres) as (child & Hin & Hp & Hcall).
    destruct (IH _ _ _ Hcall Hchain) as (top & Hasc & Htop & _ & Hname).
    exists top. split; [exact Hasc|]. split; [exact Htop|]. split; [|contradiction].
    intros _. specialize (Hname (forest_not_runtime _ _ Hforest child Hin)).
    rewrite (forest_name_inj _ _ Hforest top child Htop Hin Hname). congruence.
  - inversion Hchain.
  - change (FrameworkMatcher.runtime m) with runtime in Hne.
    apply instance_frameworkAt_elem in Hself. destruct Hself as [Hin Hname].
    destruct (concat results) as [|c cs] eqn:E.
    + apply list_elem_of_singleton in Hchain. subst chain.
      exists self. split; [reflexivity|]. split; [exact Hin|].
      split; [contradiction|]. intros _. exact Hname.
    + apply list_elem_of_fmap in Hchain. destruct Hchain as (head & -> & Hhead).
      rewrite <- E in Hhead. apply elem_of_concat in Hhead.
      destruct Hhead as (res & Hhead & Hres).
      destruct (forest_child_of _ _ _ _ _ Hnames HF Hres)
        as (child & Hcin & Hp & Hcall).
      destruct (IH _ _ _ Hcall Hhead) as (top & Hasc & Htop & _ & Htn).
      specialize (Htn (forest_not_runtime _ _ Hforest child Hcin)).
      assert (top = child) as -> by exact (forest_name_inj _ _ Hforest _ _ Htop Hcin Htn).
      exists self. split; [|split; [exact Hin|split; [contradiction|intros _; exact Hname]]].
      apply (ascends_snoc head child self Hasc). congruence.
Qed.

(** A framework that passes yields at least one chain, and it is in every
    chain of its own search. *)
Lemma matchHelper_self_in_chains fuel name self allMatches :
  name ≠ runtime →
  FrameworkMatcher.frameworkAt m name = Returns self →
  FrameworkMatcher.localMatch m self = true →
  FrameworkMatcher.matchHelper fuel m completion name = Returns allMatches →
  allMatches ≠ [] ∧ ∀ chain, chain ∈ allMatches → self ∈ chain.
Proof.
  intros Hne Hself Hl H. destruct fuel as [|fuel]; [discriminate|].
  apply matchHelper_inv in H.
  destruct H as [(Hrt & _)
                |(_ & self' & Hself'
                  & [(Hl' & _)|(_ & names & results & _ & HF & ->)])].
  - contradiction.
  - congruence.
  - assert (self' = self) as -> by congruence.
    destruct (concat results) as [|c cs]; (split; [discriminate|]).
    + intros chain Hc. apply list_elem_of_singleton in Hc. subst chain. left.
    + intros chain Hc. apply list_elem_of_fmap in Hc. destruct Hc as (head & -> & _).
      apply elem_of_app. right. left.
Qed.

Lemma forest_matchHelper_complete idx name F :
  FrameworkMatcher.index frameworks = Returns idx →
  under m frameworks name F →
  ∀ fuel allMatches,
    (name = runtime
     ∨ ∃ N, FrameworkMatcher.frameworkAt m name = Returns N
            ∧ FrameworkMatcher.localMatch m N = true) →
    FrameworkMatcher.matchHelper fuel m completion name = Returns allMatches →
    ∃ chain, chain ∈ allMatches ∧ F ∈ chain.
Proof.
  intros Hidx.
  induction 1 as [name F HF Hp Hl|name T F HT Hp Hl _ IH];
    intros fuel allMatches Hname H.
  - (* [F] is a child of [name] *)
    destruct fuel as [|fuel]; [discriminate|].
    assert (∀ names results,
      FrameworkMatcher.childrenAt m name = Returns names →
      Forall2 (λ c res,
          FrameworkMatcher.matchHelper fuel m completion c = Returns res)
        (completion name names) results →
      ∃ chain, chain ∈ concat results ∧ F ∈ chain) as Hbelow.
    { intros names results Hnames HFa.
      destruct (forest_result_of_child idx _ _ _ _ _ Hidx Hnames HFa HF Hp)
        as (res & Hres & Hcall).
      destruct (matchHelper_self_in_chains _ _ F _
                  (forest_not_runtime _ _ Hforest F HF)
                  (forest_frameworkAt _ _ Hforest _ _ idx F Hidx HF) Hl Hcall)
        as [Hne Hall].
      destruct res as [|chain res']; [contradiction|].
      exists chain. split; [|apply Hall; left].
      apply elem_of_concat. exists (chain :: res'). split; [left|exact Hres]. }
    apply matchHelper_inv in H.
    destruct H as [(_ & names & results & Hnames & _ & HFa & ->)
                  |(Hne & self & Hself
                    & [(Hl' & _)|(_ & names & results & Hnames & HFa & ->)])].
    + exact (Hbelow names results Hnames HFa).
    + destruct Hname as [->|(N & HN & HNl)]; [contradiction|congruence].
    + destruct (Hbelow names results Hnames HFa) as (chain & Hchain & HFc).
      destruct (concat results) as [|c cs] eqn:E; [inversion Hchain|].
      exists (chain ++ [self]). split.
      * apply (list_elem_of_fmap_2 (λ head, head ++ [self])). exact Hchain.
      * apply elem_of_app. left. exact HFc.
  - (* [T] is a child of [name], and [F] lies under [T] *)
    destruct fuel as [|fuel]; [discriminate|].
    assert (∀ names results,
      FrameworkMatcher.childrenAt m name = Returns names →
      Forall2 (λ c res,
          FrameworkMatcher.matchHelper fuel m completion c = Returns res)
        (completion name names) results →
      ∃ chain, chain ∈ concat results ∧ F ∈ chain) as Hbelow.
    { intros names results Hnames HFa.
      destruct (forest_result_of_child idx _ _ _ _ _ Hidx Hnames HFa HT Hp)
        as (res & Hres & Hcall).
      destruct (IH fuel res) as (chain & Hchain & HFc); [|exact Hcall|].
      { right. exists T.
        split; [exact (forest_frameworkAt _ _ Hforest _ _ idx T Hidx HT)|exact Hl]. }
      exists chain. split; [|exact HFc].
      apply elem_of_concat. exists res. split; assumption. }
    apply matchHelper_inv in H.
    destruct H as [(_ & names & results & Hnames & _ & HFa & ->)
                  |(Hne & self & Hself
                    & [(Hl' & _)|(_ & names & results & Hnames & HFa & ->)])].
    + exact (Hbelow names results Hnames HFa).
    + destruct Hname as [->|(N & HN & HNl)]; [contradiction|congruence].
    + destruct (Hbelow names results Hnames HFa) as (chain & Hchain & HFc).
      destruct (concat results) as [|c cs] eqn:E; [inversion Hchain|].
      exists (chain ++ [self]). split.
      * apply (list_elem_of_fmap_2 (λ head, head ++ [self])). exact Hchain.
      * apply elem_of_app. left. exact HFc.
Qed.
End ForestChains.

(** ** Chains returned by [match] *)

Lemma decide_Returns_inv (survivors : list Chain) (chain : Chain) :
  FrameworkMatcher.decide_ survivors = Returns chain →
  chain = [] ∨ chain ∈ survivors.
Proof.
  destruct survivors as [|c1 [|c2 rest]].
  - intros [= <-]. left. reflexivity.
  - intros [= <-]. right. left.
  - unfold FrameworkMatcher.decide_.
    destruct (mapM FrameworkMatcher.leaf (c1 :: c2 :: rest)); simpl; discriminate.
Qed.

Lemma match_Returns_inv fuel m completion (chain : Chain) :
  FrameworkMatcher.match_ fuel m completion = Returns chain →
  chain = []
  ∨ ∃ allMatches,
      FrameworkMatcher.matchHelper fuel m completion (FrameworkMatcher.runtime m)
      = Returns allMatches
      ∧ chain ∈ allMatches.
Proof.
  unfold FrameworkMatcher.match_.
  destruct (FrameworkMatcher.matchHelper _ _ _ _) as [allMatches| |]; simpl;
    try discriminate.
  destruct (eliminate_spec allMatches) as (survivors & Hel & Hsub & _).
  rewrite Hel. simpl. intros H. apply decide_Returns_inv in H.
  destruct H as [H|H]; [left; exact H|right].
  exists allMatches. split; [reflexivity|]. eapply elem_of_sublist; eassumption.
Qed.

(** Two candidates of which exactly one supersedes the other: the
    superseding chain is what remains, whatever the order. *)
Lemma eliminate_two_chains (x y : Chain) :
  supercedes x y = true → supercedes y x = false →
  FrameworkMatcher.eliminate [x; y] = Returns [x]
  ∧ FrameworkMatcher.eliminate [y; x] = Returns [x].
Proof.
  intros Hxy Hyx. split.
  - lazy -[supercedes]. rewrite Hxy. reflexivity.
  - lazy -[supercedes]. rewrite Hyx. lazy -[supercedes]. rewrite Hxy. reflexivity.
Qed.

(** Property X20. On a rule set with pairwise distinct names, none of
    them the runtime name, in which neither the runtime nor a name or a
    parent is the name of a member inherited from [Object.prototype],
    [match] settles within [length frameworks + 1] levels of recursion:
    it returns a chain or reports an ambiguity. *)
Lemma forest_match_settles runtime fs (frameworks : list Framework.t)
    dependencies completion :
  forest runtime frameworks → ordinary runtime frameworks → fair completion →
  (∃ chain,
      FrameworkMatcher.match_ (S (length frameworks))
        (FrameworkMatcher.instance runtime fs frameworks dependencies) completion
      = Returns chain)
  ∨ (∃ leaves,
      FrameworkMatcher.match_ (S (length frameworks))
        (FrameworkMatcher.instance runtime fs frameworks dependencies) completion
      = Throws (AmbiguousFramework leaves)).
Proof.
  intros Hforest Hord Hfair.
  destruct (forest_matchHelper_total runtime frameworks Hforest fs dependencies
              completion Hfair (S (length frameworks)) Hord runtime 0)
    as [allMatches Hall]; [constructor|lia|].
  destruct (eliminate_spec allMatches) as (survivors & Hel & Hsub & _).
  unfold FrameworkMatcher.match_.
  rewrite instance_runtime.
  rewrite Hall. simpl. rewrite Hel. simpl.
  destruct survivors as [|c1 [|c2 rest]]; [left; eexists; reflexivity..|].
  right.
  assert (Forall (λ chain : Chain, chain ≠ []) (c1 :: c2 :: rest)) as Hne.
  { apply Forall_forall. intros chain Hin.
    pose proof (matchHelper_nonempty _ _ _ _ _ Hall) as Hn.
    rewrite Forall_forall in Hn. apply Hn. eapply elem_of_sublist; eassumption. }
  destruct (leaves_of_nonempty _ Hne) as (leaves & Hl & _).
  exists leaves. unfold FrameworkMatcher.decide_. rewrite Hl. reflexivity.
Qed.

Lemma localMatch_false m F :
  FrameworkMatcher.dependenciesMatch m F = false
  ∨ FrameworkMatcher.filesMatch m F = false →
  FrameworkMatcher.localMatch m F = false.
Proof.
  unfold FrameworkMatcher.localMatch. intros [-> | ->]; [reflexivity|].
  apply andb_false_r.
Qed.

(** Claim C2, as amended. On a rule set whose framework names are pairwise
    distinct and differ from the runtime name, a framework whose dependency
    or file predicate is false occurs in no chain of the search, and
    neither does any of its descendants, whatever their own predicates
    say; the same holds for the chain [match] returns. When moreover
    neither the runtime nor a name or a parent of the rule set is the name
    of a member inherited from [Object.prototype], the search does
    return. *)
Theorem pruned_framework_and_descendants_absent
    (runtime : string) (fs : FileSystem.t) (frameworks : list Framework.t)
    (dependencies : gmap string string)
    (completion : string → list string → list string)
    (m : FrameworkMatcher.t) (F : Framework.t) :
  forest runtime frameworks →
  fair completion →
  FrameworkMatcher.constructor runtime fs frameworks dependencies = Returns m →
  F ∈ frameworks →
  FrameworkMatcher.dependenciesMatch m F = false
  ∨ FrameworkMatcher.filesMatch m F = false →
  (∀ fuel allMatches chain G,
       FrameworkMatcher.matchHelper fuel m completion runtime = Returns allMatches →
       chain ∈ allMatches → G ∈ chain →
       G ≠ F ∧ ¬ descendant frameworks G F)
  ∧ (∀ fuel chain G,
       FrameworkMatcher.match_ fuel m completion = Returns chain →
       G ∈ chain →
       G ≠ F ∧ ¬ descendant frameworks G F)
  ∧ (ordinary runtime frameworks →
     ∃ allMatches,
       FrameworkMatcher.matchHelper (S (length frameworks)) m completion runtime
       = Returns allMatches).
Proof.
  intros Hforest Hfair Hm HF Hfalse.
  apply constructor_inv in Hm. destruct Hm as [-> _].
  apply localMatch_false in Hfalse.
  assert (∀ fuel allMatches chain G,
    FrameworkMatcher.matchHelper fuel
      (FrameworkMatcher.instance runtime fs frameworks dependencies)
      completion runtime = Returns allMatches →
    chain ∈ allMatches → G ∈ chain →
    G ≠ F ∧ ¬ descendant frameworks G F) as Hsearch.
  { intros fuel allMatches chain G Hall Hchain HG.
    destruct (forest_matchHelper_reachable runtime frameworks Hforest fs
                dependencies completion Hfair fuel runtime allMatches
                (or_introl eq_refl) Hall chain G Hchain HG)
      as (_ & Hlocal & Hup).
    split.
    - intros ->. congruence.
    - intros Hdesc. apply Hup in Hdesc. congruence. }
  split; [|split].
  - exact Hsearch.
  - intros fuel chain G Hmatch HG. apply match_Returns_inv in Hmatch.
    destruct Hmatch as [->|(allMatches & Hall & Hchain)]; [inversion HG|].
    exact (Hsearch fuel allMatches chain G Hall Hchain HG).
  - intros Hord.
    apply (forest_matchHelper_total runtime frameworks Hforest fs dependencies
             completion Hfair (S (length frameworks)) Hord runtime 0); [constructor|lia].
Qed.

(** *** A matched stack of two *)





(** ** Concrete runs *)



Lemma pruned_framework_witness :
  (∀ fuel allMatches chain G,
       FrameworkMatcher.matchHelper fuel
         (FrameworkMatcher.instance "node" emptyFs [svelte; sveltekit; express] ∅)
         immediate "node" = Returns allMatches →
       chain ∈ allMatches → G ∈ chain →
       G ≠ svelte ∧ ¬ descendant [svelte; sveltekit; express] G svelte)
  ∧ (∀ fuel chain G,
       FrameworkMatcher.match_ fuel
         (FrameworkMatcher.instance "node" emptyFs [svelte; sveltekit; express] ∅)
         immediate = Returns chain →
       G ∈ chain →
       G ≠ svelte ∧ ¬ descendant [svelte; sveltekit; express] G svelte)
  ∧ (ordinary "node" [svelte; sveltekit; express] →
     ∃ allMatches,
       FrameworkMatcher.matchHelper 4
         (FrameworkMatcher.instance "node" emptyFs [svelte; sveltekit; express] ∅)
         immediate "node"
       = Returns allMatches).
Proof.
  apply (pruned_framework_and_descendants_absent
           "node" emptyFs [svelte; sveltekit; express] ∅ immediate).
  - split.
    + apply (bool_decide_unpack _); vm_compute; exact I.
    + apply (bool_decide_unpack _); vm_compute; exact I.
  - intros framework names. reflexivity.
  - vm_compute. reflexivity.
  - left.
  - left. vm_compute. reflexivity.
Defined.

(** Claim C2 fails as stated. When two rules share a name, the later one
    is what the name resolves to: [sveltekit], declared below the failing
    [svelte], is found through the entry the other rule of that name left
    under the runtime. When a rule is named like the runtime, the rules
    declared below that name are searched without any predicate of it
    being evaluated. *)
Lemma pruned_descendant_found_counterexample :
  (FrameworkMatcher.constructor "node" emptyFs [sveltekitAtRoot; sveltekit; svelte] ∅
   = Returns (FrameworkMatcher.instance "node" emptyFs
                [sveltekitAtRoot; sveltekit; svelte] ∅)
   ∧ FrameworkMatcher.dependenciesMatch
       (FrameworkMatcher.instance "node" emptyFs
          [sveltekitAtRoot; sveltekit; svelte] ∅) svelte = false
   ∧ descendant [sveltekitAtRoot; sveltekit; svelte] sveltekit svelte
   ∧ FrameworkMatcher.matchHelper 3
       (FrameworkMatcher.instance "node" emptyFs
          [sveltekitAtRoot; sveltekit; svelte] ∅) immediate "node"
     = Returns [[sveltekit]]
   ∧ FrameworkMatcher.match_ 3
       (FrameworkMatcher.instance "node" emptyFs
          [sveltekitAtRoot; sveltekit; svelte] ∅) immediate
     = Returns [sveltekit])
  ∧ (FrameworkMatcher.constructor "node" emptyFs
       [selfParent; namedLikeRuntime; express] ∅
     = Returns (FrameworkMatcher.instance "node" emptyFs
                  [selfParent; namedLikeRuntime; express] ∅)
     ∧ NoDup (map Framework.name [selfParent; namedLikeRuntime; express])
     ∧ FrameworkMatcher.dependenciesMatch
         (FrameworkMatcher.instance "node" emptyFs
            [selfParent; namedLikeRuntime; express] ∅) namedLikeRuntime = false
     ∧ descendant [selfParent; namedLikeRuntime; express] express namedLikeRuntime
     ∧ FrameworkMatcher.match_ 3
         (FrameworkMatcher.instance "node" emptyFs
            [selfParent; namedLikeRuntime; express] ∅) immediate
       = Returns [express]).
Proof.
  split.
  - split; [vm_compute; reflexivity|]. split; [vm_compute; reflexivity|].
    split; [|split; vm_compute; reflexivity].
    apply descendant_child; [right; left|right; right; left|reflexivity].
  - split; [vm_compute; reflexivity|].
    split; [apply (bool_decide_unpack _); vm_compute; exact I|].
    split; [vm_compute; reflexivity|].
    split; [|vm_compute; reflexivity].
    apply descendant_child; [right; right; left|right; left|reflexivity].
Qed.

Lemma match_decides_witness :
  ∃ survivors,
    FrameworkMatcher.eliminate [[react]; [express]] = Returns survivors
    ∧ match survivors with
      | [] =>
          FrameworkMatcher.match_ 2
            (FrameworkMatcher.instance "node" emptyFs [react; express] ∅) immediate
          = Returns []
      | [chain] =>
          FrameworkMatcher.match_ 2
            (FrameworkMatcher.instance "node" emptyFs [react; express] ∅) immediate
          = Returns chain
      | _ :: _ :: _ =>
          ∃ leaves,
            FrameworkMatcher.match_ 2
              (FrameworkMatcher.instance "node" emptyFs [react; express] ∅) immediate
            = Throws (AmbiguousFramework leaves)
            ∧ Forall2 (λ chain leaf,
                 ∃ framework, chain !! 0 = Some framework
                              ∧ Framework.name framework = leaf)
                survivors leaves
      end.
Proof.
  apply (match_decides_on_survivors 2
           (FrameworkMatcher.instance "node" emptyFs [react; express] ∅)
           immediate [[react]; [express]]).
  vm_compute. reflexivity.
Defined.

Lemma vars_most_specific_wins_witness :
  vars [declaring "next" "react" {["dist" := ".next"]};
        declaring "react" "node" {["dist" := "build"; "port" := "3000"]}]
    !! "dist" = Some ".next".
Proof.
  apply (proj1 (vars_most_specific_wins
                  [declaring "next" "react" {["dist" := ".next"]};
                   declaring "react" "node" {["dist" := "build"; "port" := "3000"]}]
                  "dist")
           0 (declaring "next" "react" {["dist" := ".next"]}) ".next").
  - reflexivity.
  - vm_compute. reflexivity.
  - intros j other Hj. lia.
Defined.

(** Claim C4 on three candidates. [portal] supersedes [widget], and both
    are candidates, yet [widget] survives when [shell], which supersedes
    [portal], comes first: [portal] is removed before it is compared with
    [widget], and [match] reports an ambiguity between [shell] and
    [widget]. With the same rules listed in another order the sweep
    leaves [shell] alone. *)
Theorem eliminate_outcome_depends_on_order :
  supercedes [portal] [widget] = true
  ∧ FrameworkMatcher.matchHelper 2
      (FrameworkMatcher.instance "node" emptyFs [shell; portal; widget] ∅)
      immediate "node"
    = Returns [[shell]; [portal]; [widget]]
  ∧ FrameworkMatcher.eliminate [[shell]; [portal]; [widget]]
    = Returns [[shell]; [widget]]
  ∧ detectFrameworks 2 "node" emptyFs [shell; portal; widget] ∅
    = Throws (AmbiguousFramework ["shell"; "widget"])
  ∧ FrameworkMatcher.eliminate [[portal]; [widget]; [shell]] = Returns [[shell]]
  ∧ detectFrameworks 2 "node" emptyFs [portal; widget; shell] ∅ = Returns [shell].
Proof.
  split; [vm_compute; reflexivity|].
  split; [vm_compute; reflexivity|].
  split; [vm_compute; reflexivity|].
  split; [vm_compute; reflexivity|].
  split; vm_compute; reflexivity.
Qed.

(** Claim C5 on a dependency map that holds the key with an empty version
    string. The key ["react"] is present, yet the dependency predicate of
    [reactApp] is false and no framework is detected; with a non-empty
    version the framework is detected. *)
Theorem dependency_with_empty_version_is_missed :
  is_Some (FrameworkMatcher.dependencies
             (FrameworkMatcher.instance "node" emptyFs [reactApp] {["react" := ""]})
           !! "react")
  ∧ FrameworkMatcher.dependenciesMatch
      (FrameworkMatcher.instance "node" emptyFs [reactApp] {["react" := ""]})
      reactApp = false
  ∧ detectFrameworks 2 "node" emptyFs [reactApp] {["react" := ""]} = Returns []
  ∧ detectFrameworks 2 "node" emptyFs [reactApp] {["react" := "18.2.0"]}
    = Returns [reactApp].
Proof.
  split; [exists ""; vm_compute; reflexivity|].
  split; [vm_compute; reflexivity|].
  split; vm_compute; reflexivity.
Qed.

Lemma constructor_fails_witness :
  ((∃ name parent,
       FrameworkMatcher.constructor "node" emptyFs [react; sveltekit] ∅
       = Throws (InvalidRuleSet name parent))
   ↔ ∃ framework, framework ∈ [react; sveltekit]
                  ∧ dangling "node" [react; sveltekit] framework)
  ∧ ((∃ m, FrameworkMatcher.constructor "node" emptyFs [react; sveltekit] ∅ = Returns m)
     ↔ ∀ framework, framework ∈ [react; sveltekit] →
         Framework.parent framework = "node"
         ∨ ∃ other, other ∈ [react; sveltekit]
                    ∧ Framework.name other = Framework.parent framework).
Proof.
  apply (constructor_fails_iff_dangling_parent "node" emptyFs [react; sveltekit] ∅).
  intros framework Hin.
  repeat (apply elem_of_cons in Hin; destruct Hin as [->|Hin]);
    [split; [vm_compute; reflexivity|vm_compute; discriminate]..|inversion Hin].
Defined.

(** Claim C8 fails as stated. A parent named like a member that plain
    objects inherit makes the first constructor loop throw a [TypeError]
    before the sanity check is reached, whether the parent dangles or
    names a rule of the list. A rule named ["__proto__"] becomes the
    prototype of the name index, and a dangling parent that is the name
    of one of its properties, here ["name"], passes the sanity check. *)
Lemma constructor_inherited_parent_counterexample :
  ((∃ framework, framework ∈ [rule "x" "toString"]
                 ∧ dangling "node" [rule "x" "toString"] framework)
   ∧ FrameworkMatcher.constructor "node" emptyFs [rule "x" "toString"] ∅
     = Throws TypeError)
  ∧ ((∀ framework, framework ∈ [rule "toString" "node"; rule "x" "toString"] →
        Framework.parent framework = "node"
        ∨ ∃ other, other ∈ [rule "toString" "node"; rule "x" "toString"]
                   ∧ Framework.name other = Framework.parent framework)
     ∧ FrameworkMatcher.constructor "node" emptyFs
         [rule "toString" "node"; rule "x" "toString"] ∅
       = Throws TypeError)
  ∧ ((∃ framework, framework ∈ [rule "__proto__" "node"; rule "x" "name"]
                   ∧ dangling "node" [rule "__proto__" "node"; rule "x" "name"]
                       framework)
     ∧ FrameworkMatcher.constructor "node" emptyFs
         [rule "__proto__" "node"; rule "x" "name"] ∅
       = Returns (FrameworkMatcher.instance "node" emptyFs
                    [rule "__proto__" "node"; rule "x" "name"] ∅)).
Proof.
  split; [|split].
  - split; [|vm_compute; reflexivity].
    exists (rule "x" "toString"). split; [left|]. split; [vm_compute; discriminate|].
    intros other Hin. apply list_elem_of_singleton in Hin. subst other.
    vm_compute. discriminate.
  - split; [|vm_compute; reflexivity].
    intros framework Hin.
    repeat (apply elem_of_cons in Hin; destruct Hin as [->|Hin]);
      [left; reflexivity
      |right; exists (rule "toString" "node"); split; [left|reflexivity]
      |inversion Hin].
  - split; [|vm_compute; reflexivity].
    exists (rule "x" "name"). split; [right; left|]. split; [vm_compute; discriminate|].
    intros other Hin.
    repeat (apply elem_of_cons in Hin; destruct Hin as [->|Hin]);
      [vm_compute; discriminate..|inversion Hin].
Qed.

Lemma MockFileSystem_read_agrees_witness :
  MockFileSystem.exists_ {["package.json" := "{}"]} "package.json" = true
  ↔ ∃ content, ({["package.json" := "{}"]} : gmap string string) !! "package.json"
               = Some content
               ∧ MockFileSystem.read {["package.json" := "{}"]} "package.json"
                 = Returns (Text content).
Proof.
  apply (proj1 (proj2 (proj2 (MockFileSystem_read_agrees_with_exists
                                {["package.json" := "{}"]} "package.json")))).
  vm_compute. reflexivity.
Defined.

(** Claim C10 fails as stated. A path named like a member that plain
    objects inherit is [in] every mock: [exists] answers true and [read]
    resolves, not to a mapped content, for there is none, but to the
    inherited member. *)
Lemma MockFileSystem_inherited_path_counterexample :
  MockFileSystem.exists_ ∅ "toString" = true
  ∧ (∅ : gmap string string) !! "toString" = None
  ∧ MockFileSystem.read ∅ "toString" = Returns (Member "toString")
  ∧ ¬ ∃ content, (∅ : gmap string string) !! "toString" = Some content
                 ∧ MockFileSystem.read ∅ "toString" = Returns (Text content).
Proof.
  split; [vm_compute; reflexivity|]. split; [apply lookup_empty|].
  split; [vm_compute; reflexivity|].
  intros (content & H & _). rewrite lookup_empty in H. discriminate.
Qed.
(** * Further properties *)

(** ** [interpolate] *)

Lemma variable_spec vars varName :
  variable vars varName =
  match vars with
  | None => ""
  | Some vars =>
      match vars !! varName with
      | Some value => value
      | None => if inherited varName then memberText varName else ""
      end
  end.
Proof.
  unfold variable, valueAt. destruct vars as [vars|]; [|reflexivity].
  destruct (vars !! varName); [reflexivity|].
  destruct (inherited varName); reflexivity.
Qed.

Lemma variable_default vars varName :
  inherited varName = false →
  variable vars varName = default "" (vars ≫= (λ vars, vars !! varName)).
Proof.
  intros H. rewrite variable_spec, H. destruct vars as [vars|]; [|reflexivity].
  simpl. destruct (vars !! varName); reflexivity.
Qed.

Lemma occurs_append c (a b : string) :
  occurs c (a +:+ b) = occurs c a || occurs c b.
Proof.
  induction a as [|d a IH]; [reflexivity|].
  change (String d a +:+ b) with (String d (a +:+ b)). simpl.
  rewrite IH, orb_assoc. reflexivity.
Qed.

(** No inherited name holds a closing brace. *)
Lemma inherited_no_brace key : occurs "}" key = true → inherited key = false.
Proof.
  intros Hocc. destruct (inherited key) eqn:Hi; [|reflexivity].
  apply inherited_spec in Hi. unfold inheritedNames in Hi.
  repeat (apply elem_of_cons in Hi; destruct Hi as [->|Hi]);
    [vm_compute in Hocc; discriminate..|inversion Hi].
Qed.

Lemma lastClose_no_close s : occurs "}" s = false → lastClose s = None.
Proof.
  induction s as [|c s IH]; simpl; [reflexivity|].
  intros H. apply orb_false_iff in H. destruct H as [Hc Hs].
  destruct (lineTerminator c); [reflexivity|].
  rewrite (IH Hs), Hc. reflexivity.
Qed.

Lemma occurs_tail c d s : occurs c (String d s) = false → occurs c s = false.
Proof. simpl. intros H. apply orb_false_iff in H. apply H. Qed.

Lemma replaceAll_O replacer c rest :
  replaceAll replacer 0 (String c rest) =
  match rest with
  | String d body =>
      if Ascii.eqb c "$" && Ascii.eqb d "{" then
        match lastClose body with
        | Some k =>
            replacer (substring 0 k body) +:+ replaceAll replacer (k + 2) rest
        | None => String c (replaceAll replacer 0 rest)
        end
      else String c (replaceAll replacer 0 rest)
  | EmptyString => String c EmptyString
  end.
Proof. reflexivity. Qed.

Lemma replaceAll_no_close replacer s :
  occurs "}" s = false → replaceAll replacer 0 s = s.
Proof.
  induction s as [|c s IH]; [reflexivity|]. intros H.
  pose proof (occurs_tail _ _ _ H) as Hs. specialize (IH Hs).
  rewrite replaceAll_O. destruct s as [|d body]; [reflexivity|].
  rewrite (lastClose_no_close body (occurs_tail _ _ _ Hs)).
  destruct (Ascii.eqb c "$" && Ascii.eqb d "{"); rewrite IH; reflexivity.
Qed.

Lemma replaceAll_no_dollar replacer s :
  occurs "$" s = false → replaceAll replacer 0 s = s.
Proof.
  induction s as [|c s IH]; [reflexivity|]. intros H.
  pose proof (occurs_tail _ _ _ H) as Hs. specialize (IH Hs).
  simpl in H. apply orb_false_iff in H. destruct H as [Hc _].
  rewrite replaceAll_O. destruct s as [|d body]; [reflexivity|].
  rewrite Hc. simpl (false && _). rewrite IH. reflexivity.
Qed.

Lemma replaceAll_prefix replacer pre s :
  occurs "$" pre = false →
  replaceAll replacer 0 (pre +:+ s) = pre +:+ replaceAll replacer 0 s.
Proof.
  induction pre as [|c pre IH]; [reflexivity|]. intros H.
  pose proof (occurs_tail _ _ _ H) as Hs. specialize (IH Hs).
  simpl in H. apply orb_false_iff in H. destruct H as [Hc _].
  change (String c pre +:+ s) with (String c (pre +:+ s)).
  change (String c pre +:+ replaceAll replacer 0 s)
    with (String c (pre +:+ replaceAll replacer 0 s)).
  rewrite <- IH.
  rewrite replaceAll_O.
  destruct (pre +:+ s) as [|d body] eqn:E; [reflexivity|].
  rewrite Hc. reflexivity.
Qed.

Lemma replaceAll_S replacer n c rest :
  replaceAll replacer (S n) (String c rest) = replaceAll replacer n rest.
Proof. reflexivity. Qed.

Lemma replaceAll_skip replacer x n s :
  replaceAll replacer (String.length x + n) (x +:+ s) = replaceAll replacer n s.
Proof.
  induction x as [|c x IH]; [reflexivity|].
  change (replaceAll replacer (S (String.length x + n)) (String c (x +:+ s))
          = replaceAll replacer n s).
  rewrite replaceAll_S. exact IH.
Qed.

Lemma lastClose_body body post :
  singleLine body = true → occurs "}" post = false →
  lastClose (body +:+ String "}" post) = Some (String.length body).
Proof.
  intros Hbody Hpost. induction body as [|c body IH]; simpl.
  - rewrite (lastClose_no_close post Hpost). reflexivity.
  - simpl in Hbody. apply andb_true_iff in Hbody. destruct Hbody as [Hc Hb].
    apply negb_true_iff in Hc. rewrite Hc, (IH Hb). reflexivity.
Qed.

Lemma substring_prefix x s : substring 0 (String.length x) (x +:+ s) = x.
Proof.
  induction x as [|c x IH]; simpl; [destruct s; reflexivity|]. rewrite IH. reflexivity.
Qed.

(** One placeholder whose name stays on a line and after which no closing
    brace follows. The name may hold anything but a line terminator. *)
Lemma replaceAll_placeholder replacer pre body post :
  occurs "$" pre = false → singleLine body = true → occurs "}" post = false →
  replaceAll replacer 0 (pre +:+ String "$" (String "{" (body +:+ String "}" post)))
  = pre +:+ replacer body +:+ post.
Proof.
  intros Hpre Hbody Hpost. rewrite (replaceAll_prefix _ _ _ Hpre). f_equal.
  rewrite replaceAll_O. change (Ascii.eqb "$" "$" && Ascii.eqb "{" "{") with true.
  cbv iota.
  rewrite (lastClose_body _ _ Hbody Hpost), substring_prefix. f_equal.
  replace (String.length body + 2) with (S (String.length body + 1)) by lia.
  rewrite replaceAll_S, replaceAll_skip, replaceAll_S.
  apply replaceAll_no_close. exact Hpost.
Qed.

Lemma interpolate_Some template vars :
  interpolate (Some template) vars = Some (replaceAll (variable vars) 0 template).
Proof. destruct template; reflexivity. Qed.
Lemma append_assoc (a b c : string) : (a +:+ b) +:+ c = a +:+ (b +:+ c).
Proof.
  induction a as [|x a IH]; [reflexivity|].
  change (String x ((a +:+ b) +:+ c) = String x (a +:+ (b +:+ c))).
  rewrite IH. reflexivity.
Qed.

Lemma lineTerminator_plain c :
  lineTerminator c = true → Ascii.eqb c "$" = false ∧ Ascii.eqb c "{" = false.
Proof.
  unfold lineTerminator. intros H. apply orb_true_iff in H.
  destruct H as [H|H]; apply Ascii.eqb_eq in H; subst c; split; reflexivity.
Qed.

Lemma lastClose_line x nl rest :
  lineTerminator nl = true → lastClose (x +:+ String nl rest) = lastClose x.
Proof.
  intros Hnl. induction x as [|c x IH].
  - change (lastClose (String nl rest) = None). simpl. rewrite Hnl. reflexivity.
  - change (lastClose (String c (x +:+ String nl rest)) = lastClose (String c x)).
    simpl. rewrite IH. reflexivity.
Qed.

Lemma lastClose_lt x k : lastClose x = Some k → k < String.length x.
Proof.
  revert k. induction x as [|c x IH]; intros k; simpl; [discriminate|].
  destruct (lineTerminator c); [discriminate|].
  destruct (lastClose x) as [j|].
  - intros [= <-]. specialize (IH j eq_refl). lia.
  - destruct (Ascii.eqb c "}"); [|discriminate]. intros [= <-]. lia.
Qed.

Lemma substring_append x k s :
  k ≤ String.length x → substring 0 k (x +:+ s) = substring 0 k x.
Proof.
  revert k. induction x as [|c x IH]; intros k Hk.
  - simpl in Hk. replace k with 0 by lia. destruct s; reflexivity.
  - destruct k as [|k]; [reflexivity|].
    change (String c (substring 0 k (x +:+ s)) = String c (substring 0 k x)).
    rewrite IH; [reflexivity|]. simpl in Hk. lia.
Qed.

(** No match reaches across a line terminator, so the lines are replaced
    one by one. *)
Lemma replaceAll_lines replacer nl b a :
  lineTerminator nl = true →
  ∀ n, n ≤ String.length a →
    replaceAll replacer n (a +:+ String nl b)
    = replaceAll replacer n a +:+ String nl (replaceAll replacer 0 b).
Proof.
  intros Hnl. destruct (lineTerminator_plain nl Hnl) as [Hdollar Hopen].
  induction a as [|c a IH]; intros n Hn.
  - simpl in Hn. replace n with 0 by lia.
    change (replaceAll replacer 0 (String nl b)
            = String nl (replaceAll replacer 0 b)).
    rewrite replaceAll_O. destruct b as [|d body]; [reflexivity|].
    rewrite Hdollar. reflexivity.
  - change (String c a +:+ String nl b) with (String c (a +:+ String nl b)).
    destruct n as [|n]; [|rewrite !replaceAll_S; apply IH; simpl in Hn; lia].
    assert (String c (replaceAll replacer 0 (a +:+ String nl b))
            = String c (replaceAll replacer 0 a)
              +:+ String nl (replaceAll replacer 0 b)) as Hplain.
    { rewrite (IH 0) by lia. reflexivity. }
    rewrite !replaceAll_O. destruct a as [|d body].
    + change ("" +:+ String nl b) with (String nl b) in *.
      cbv beta iota. rewrite Hopen, andb_false_r. exact Hplain.
    + change (String d body +:+ String nl b)
        with (String d (body +:+ String nl b)) in *.
      cbv beta iota.
      destruct (Ascii.eqb c "$" && Ascii.eqb d "{"); [|exact Hplain].
      rewrite (lastClose_line _ _ _ Hnl).
      destruct (lastClose body) as [k|] eqn:Hk; [|exact Hplain].
      pose proof (lastClose_lt _ _ Hk) as Hlt.
      rewrite substring_append by lia.
      rewrite (IH (k + 2)) by (simpl; lia).
      rewrite append_assoc. reflexivity.
Qed.

Lemma singleLine_append a b :
  singleLine (a +:+ b) = singleLine a && singleLine b.
Proof.
  induction a as [|c a IH]; [reflexivity|].
  change (negb (lineTerminator c) && singleLine (a +:+ b)
          = negb (lineTerminator c) && singleLine a && singleLine b).
  rewrite IH. apply andb_assoc.
Qed.

(** Property X1. [interpolate] hands back a null or empty template, and a
    template that holds no dollar sign or no closing brace, unchanged. *)
Theorem interpolate_without_placeholder (vars : option (gmap string string)) :
  interpolate None vars = None
  ∧ interpolate (Some "") vars = Some ""
  ∧ ∀ template,
      occurs "$" template = false ∨ occurs "}" template = false →
      interpolate (Some template) vars = Some template.
Proof.
  split; [reflexivity|]. split; [reflexivity|].
  intros template H. rewrite interpolate_Some. f_equal.
  destruct H as [H|H]; [apply replaceAll_no_dollar|apply replaceAll_no_close]; exact H.
Qed.

(** Property X2. A placeholder is replaced by the value of the variable
    it names. It is replaced by nothing when [vars] is absent, when the
    key maps to the empty string, and when there is no such key and the
    name is none that plain objects inherit; a name of an inherited
    member that is no key is replaced by the text of that member. This
    holds for a template [pre ${body} post] in which [pre] holds no
    dollar sign, [body] no line terminator and [post] no closing brace. *)
Theorem interpolate_replaces_placeholder
    (vars : option (gmap string string)) (pre body post : string) :
  occurs "$" pre = false → singleLine body = true → occurs "}" post = false →
  interpolate (Some (pre +:+ "${" +:+ body +:+ "}" +:+ post)) vars
  = Some (pre
          +:+ match vars with
              | None => ""
              | Some vars =>
                  match vars !! body with
                  | Some value => value
                  | None => if inherited body then memberText body else ""
                  end
              end
          +:+ post).
Proof.
  intros Hpre Hbody Hpost. rewrite interpolate_Some. f_equal.
  rewrite <- variable_spec.
  exact (replaceAll_placeholder (variable vars) pre body post Hpre Hbody Hpost).
Qed.

(** Property X3. Two placeholders on one line are not replaced one by
    one: the capture group is greedy, so everything from the first
    opening to the last closing brace of the line is looked up as a
    single variable name. *)
Theorem interpolate_merges_placeholders_of_a_line
    (vars : option (gmap string string)) (a mid b : string) :
  singleLine a = true → singleLine mid = true → singleLine b = true →
  interpolate (Some ("${" +:+ a +:+ "}" +:+ mid +:+ "${" +:+ b +:+ "}")) vars
  = Some (default ""
            (vars ≫= (λ vars, vars !! (a +:+ "}" +:+ mid +:+ "${" +:+ b)))).
Proof.
  intros Ha Hmid Hb. rewrite interpolate_Some. f_equal.
  rewrite <- variable_default
    by (apply inherited_no_brace; rewrite !occurs_append; simpl;
        apply orb_true_r).
  pose proof (replaceAll_placeholder (variable vars) ""
                (a +:+ "}" +:+ mid +:+ "${" +:+ b) "" eq_refl) as H.
  rewrite !singleLine_append, Ha, Hmid, Hb in H. specialize (H eq_refl eq_refl).
  change ("" +:+ variable vars (a +:+ "}" +:+ mid +:+ "${" +:+ b) +:+ "")
    with (variable vars (a +:+ "}" +:+ mid +:+ "${" +:+ b) +:+ "") in H.
  replace (variable vars (a +:+ "}" +:+ mid +:+ "${" +:+ b) +:+ "")
    with (variable vars (a +:+ "}" +:+ mid +:+ "${" +:+ b)) in H.
  - rewrite <- H. f_equal.
    change ("${" +:+ a +:+ "}" +:+ mid +:+ "${" +:+ b +:+ "}")
      with (String "$" (String "{" (a +:+ "}" +:+ mid +:+ "${" +:+ b +:+ "}"))).
    change ("" +:+ String "$" (String "{" ((a +:+ "}" +:+ mid +:+ "${" +:+ b)
                                           +:+ String "}" "")))
      with (String "$" (String "{" ((a +:+ "}" +:+ mid +:+ "${" +:+ b)
                                    +:+ String "}" ""))).
    do 2 f_equal.
    rewrite !append_assoc. reflexivity.
  - generalize (variable vars (a +:+ "}" +:+ mid +:+ "${" +:+ b)). intros s.
    induction s as [|c s IH]; [reflexivity|].
    change (String c s = String c (s +:+ "")). rewrite <- IH. reflexivity.
Qed.

(** Property X4. A placeholder never reaches across a line feed or a
    carriage return: interpolating two parts joined by a line terminator
    gives the two interpolated parts joined by it. *)
Theorem interpolate_line_by_line
    (vars : option (gmap string string)) (a b : string) (nl : ascii) :
  lineTerminator nl = true →
  interpolate (Some (a +:+ String nl b)) vars
  = Some (default "" (interpolate (Some a) vars)
          +:+ String nl (default "" (interpolate (Some b) vars))).
Proof.
  intros Hnl. rewrite !interpolate_Some. simpl default. f_equal.
  apply replaceAll_lines; [exact Hnl|lia].
Qed.

(** ** [readOrNull] and the file systems *)

(** Property X5. Over a [MockFileSystem], [readOrNull] resolves to what
    the mock holds under the path, null when the path is not [in] the
    mock; it never fails. For a path that is no name of a member
    inherited from [Object.prototype], that is the mapped content of a
    key of the mock and null for any other path. *)
Theorem readOrNull_MockFileSystem (mock : gmap string string) (path : string) :
  readOrNull (mockReadCall mock) path = Returns (valueAt mock path)
  ∧ (MockFileSystem.exists_ mock path = false →
     readOrNull (mockReadCall mock) path = Returns None)
  ∧ (∀ value,
       MockFileSystem.read mock path = Returns value →
       readOrNull (mockReadCall mock) path = Returns (Some value))
  ∧ (inherited path = false →
     readOrNull (mockReadCall mock) path = Returns (Text <$> mock !! path)).
Proof.
  unfold readOrNull, mockReadCall, MockFileSystem.exists_, MockFileSystem.read.
  rewrite hasKey_valueAt.
  destruct (valueAt mock path) as [value|] eqn:Hp.
  - split; [reflexivity|]. split; [|split].
    + intros H. apply bool_decide_eq_false in H. destruct H. eauto.
    + intros c [= <-]. reflexivity.
    + intros Hi. unfold valueAt in Hp. rewrite Hi in Hp.
      destruct (mock !! path); [|discriminate]. injection Hp as <-. reflexivity.
  - split; [reflexivity|]. split; [reflexivity|]. split; [intros c H; discriminate|].
    intros Hi. unfold valueAt in Hp.
    destruct (mock !! path); [discriminate|]. reflexivity.
Qed.

Lemma readOrNull_MockFileSystem_witness :
  readOrNull (mockReadCall {["package.json" := "{}"]}) "requirements.txt"
  = Returns None
  ∧ readOrNull (mockReadCall {["package.json" := "{}"]}) "package.json"
    = Returns (Some (Text "{}")).
Proof.
  split.
  - apply (proj1 (proj2 (readOrNull_MockFileSystem
                           {["package.json" := "{}"]} "requirements.txt"))).
    vm_compute. reflexivity.
  - apply (proj1 (proj2 (proj2 (readOrNull_MockFileSystem
                                  {["package.json" := "{}"]} "package.json")))).
    vm_compute. reflexivity.
Defined.

(** Property X6. [readOrNull] does not await the promise it returns, so
    its [catch] never sees a rejection: when [read] returns a promise,
    [readOrNull] settles like that promise. Over a [RealFileSystem], whose
    [read] is [async], it therefore never yields null, and a file the disk
    does not have makes it reject with the ENOENT error, provided the
    path is no name of a member inherited from [Object.prototype]; for
    such a name [read] throws the inherited member without asking the
    disk. *)
Theorem readOrNull_passes_rejections_through :
  (∀ A (read : string → Call A) path o,
      read path = Promise o → readOrNull read path = Some <$> o)
  ∧ (∀ node this path,
       readOrNull (RealFileSystem.readCall node this) path ≠ Returns None)
  ∧ (∀ node cwd path err,
       inherited path = false →
       Node.readFile node (Node.join node cwd path) = Throws err →
       readOrNull (RealFileSystem.readCall node (RealFileSystem.new cwd)) path
       = Throws err)
  ∧ (∀ node cwd path,
       inherited path = true →
       readOrNull (RealFileSystem.readCall node (RealFileSystem.new cwd)) path
       = Throws (NotAnError path)).
Proof.
  split; [|split; [|split]].
  - intros A read path o H. unfold readOrNull. rewrite H. reflexivity.
  - intros node this path. unfold readOrNull, RealFileSystem.readCall.
    destruct (RealFileSystem.read node this path).1; discriminate.
  - intros node cwd path err Hi H.
    unfold readOrNull, RealFileSystem.readCall, RealFileSystem.read,
      RealFileSystem.new.
    cbn [RealFileSystem.readErrorCache RealFileSystem.contentCache RealFileSystem.cwd].
    rewrite !lookup_empty, Hi, H. reflexivity.
  - intros node cwd path Hi.
    unfold readOrNull, RealFileSystem.readCall, RealFileSystem.read,
      RealFileSystem.new.
    cbn [RealFileSystem.readErrorCache RealFileSystem.contentCache RealFileSystem.cwd].
    rewrite !lookup_empty, Hi. reflexivity.
Qed.

Lemma readOrNull_rejection_witness :
  readOrNull (RealFileSystem.readCall emptyDisk (RealFileSystem.new "/srv/app"))
    "package.json"
  = Throws NotFound.
Proof.
  apply (proj1 (proj2 (proj2 readOrNull_passes_rejections_through)));
    vm_compute; reflexivity.
Defined.

(** Property X7. [RealFileSystem.exists] asks the disk once per path: a
    second call for the same path gives the first answer and leaves the
    object as it is, whatever the disk holds by then, and the answer
    remembered for one path does not change what another path gets. *)
Theorem RealFileSystem_exists_memoized
    (node node' : Node.t) (this : RealFileSystem.t) (path other : string) :
  RealFileSystem.exists_ node' (RealFileSystem.exists_ node this path).2 path
  = RealFileSystem.exists_ node this path
  ∧ (other ≠ path →
     (RealFileSystem.exists_ node' (RealFileSystem.exists_ node this path).2 other).1
     = (RealFileSystem.exists_ node' this other).1).
Proof.
  unfold RealFileSystem.exists_.
  destruct (RealFileSystem.existsCache this !! path) as [answer|] eqn:Hp.
  - cbn [snd fst]. rewrite Hp. split; reflexivity.
  - destruct (inherited path) eqn:Hi.
    + cbn [snd fst]. rewrite Hp. split; reflexivity.
    + cbn [snd fst RealFileSystem.existsCache RealFileSystem.cwd].
      rewrite lookup_insert_eq. split; [reflexivity|].
      intros Hne. rewrite lookup_insert_ne by congruence.
      destruct (RealFileSystem.existsCache this !! other); [reflexivity|].
      destruct (inherited other); reflexivity.
Qed.

Lemma RealFileSystem_exists_witness :
  (RealFileSystem.exists_ emptyDisk
     (RealFileSystem.exists_ fullDisk (RealFileSystem.new "/srv/app")
        "package.json").2
     "setup.py").1
  = false.
Proof.
  rewrite (proj2 (RealFileSystem_exists_memoized _ _ _ "package.json" "setup.py"));
    [reflexivity|discriminate].
Defined.

(** Property X8. [RealFileSystem.read] remembers a content it has read
    and a failure whose code is ENOENT: the same read repeated gives the
    same result and leaves the object as it is, whatever the disk holds by
    then. A failure with another code, and a read that does not settle,
    leave the object unchanged, so that the next read asks the disk
    again. *)
Theorem RealFileSystem_read_remembered
    (node node' : Node.t) (this : RealFileSystem.t) (path : string) :
  match (RealFileSystem.read node this path).1 with
  | Returns _ =>
      RealFileSystem.read node' (RealFileSystem.read node this path).2 path
      = RealFileSystem.read node this path
  | Throws err =>
      if bool_decide (code err = Some "ENOENT") then
        RealFileSystem.read node' (RealFileSystem.read node this path).2 path
        = RealFileSystem.read node this path
      else (RealFileSystem.read node this path).2 = this
  | Pending => (RealFileSystem.read node this path).2 = this
  end.
Proof.
  unfold RealFileSystem.read.
  destruct (RealFileSystem.readErrorCache this !! path) as [err|] eqn:He.
  - cbn [fst snd]. rewrite He. destruct (bool_decide _); reflexivity.
  - destruct (inherited path) eqn:Hi; [reflexivity|].
    destruct (RealFileSystem.contentCache this !! path) as [content|] eqn:Hc.
    + cbn [fst snd]. rewrite He, Hc. reflexivity.
    + destruct (Node.readFile node _) as [content|err|] eqn:Hr; cbn [fst snd].
      * cbn [RealFileSystem.readErrorCache RealFileSystem.contentCache].
        rewrite He, lookup_insert_eq. reflexivity.
      * destruct (bool_decide (code err = Some "ENOENT")) eqn:Hcode; [|reflexivity].
        cbn [RealFileSystem.readErrorCache]. rewrite lookup_insert_eq. reflexivity.
      * reflexivity.
Qed.

(** Property X9. From a new [RealFileSystem] on, the caches stay
    consistent under [exists] and [read]: only errors whose code is ENOENT
    are remembered, and no path has both a content and an error. *)
Theorem RealFileSystem_caches_consistent :
  (∀ cwd, RealFileSystem.consistent (RealFileSystem.new cwd))
  ∧ (∀ node this path,
       RealFileSystem.consistent this →
       RealFileSystem.consistent (RealFileSystem.exists_ node this path).2)
  ∧ (∀ node this path,
       RealFileSystem.consistent this →
       RealFileSystem.consistent (RealFileSystem.read node this path).2).
Proof.
  split; [|split].
  - intros cwd. split.
    + intros path err H. cbn in H. rewrite lookup_empty in H. discriminate.
    + intros path [c H]. cbn in H. rewrite lookup_empty in H. discriminate.
  - intros node this path Hc. unfold RealFileSystem.exists_.
    destruct (RealFileSystem.existsCache this !! path); [exact Hc|].
    destruct (inherited path); exact Hc.
  - intros node this path [Hcode Hdisj]. unfold RealFileSystem.read.
    destruct (RealFileSystem.readErrorCache this !! path) as [err|] eqn:He;
      [split; assumption|].
    destruct (inherited path); [split; assumption|].
    destruct (RealFileSystem.contentCache this !! path) as [content|] eqn:Hcont;
      [split; assumption|].
    destruct (Node.readFile node _) as [content|err|]; cbn [snd];
      [| |split; assumption].
    + split; [exact Hcode|]. cbn [RealFileSystem.contentCache RealFileSystem.readErrorCache].
      intros p Hp. destruct (decide (path = p)) as [<-|Hne]; [exact He|].
      rewrite lookup_insert_ne in Hp by exact Hne. apply Hdisj. exact Hp.
    + destruct (bool_decide (code err = Some "ENOENT")) eqn:Hb; [|split; assumption].
      apply bool_decide_eq_true in Hb. split;
        cbn [RealFileSystem.contentCache RealFileSystem.readErrorCache].
      * intros p e Hp. destruct (decide (path = p)) as [<-|Hne].
        -- rewrite lookup_insert_eq in Hp. injection Hp as <-. exact Hb.
        -- rewrite lookup_insert_ne in Hp by exact Hne. exact (Hcode p e Hp).
      * intros p Hp. destruct (decide (path = p)) as [<-|Hne].
        -- rewrite Hcont in Hp. destruct Hp. discriminate.
        -- rewrite lookup_insert_ne by exact Hne. apply Hdisj. exact Hp.
Qed.

Lemma RealFileSystem_caches_witness :
  RealFileSystem.consistent
    (RealFileSystem.read emptyDisk (RealFileSystem.new "/srv/app")
       "package.json").2.
Proof.
  apply (proj2 (proj2 RealFileSystem_caches_consistent)).
  apply (proj1 RealFileSystem_caches_consistent).
Defined.

(** ** The matcher: indexes, candidates and the sweep *)

Lemma last_cons_cases {A} (x : A) (l : list A) :
  last (x :: l) = match last l with Some y => Some y | None => Some x end.
Proof.
  destruct l as [|y l]; [reflexivity|]. rewrite last_cons_cons.
  destruct (last (y :: l)) eqn:E; [reflexivity|].
  apply last_None in E. discriminate.
Qed.

Lemma entered_frameworks_last (l : list Framework.t) (byName : gmap string Framework.t) n :
  fold_left (λ acc framework, <[Framework.name framework := framework]> acc) l byName !! n
  = match last (filter (λ g, Framework.name g = n) l) with
    | Some g => Some g
    | None => byName !! n
    end.
Proof.
  revert byName. induction l as [|g l IH]; intros byName; [reflexivity|].
  simpl. rewrite IH, filter_cons.
  destruct (decide (Framework.name g = n)) as [E|E].
  - rewrite last_cons_cases.
    destruct (last (filter _ l)); [reflexivity|].
    rewrite <- E. apply lookup_insert_eq.
  - destruct (last (filter _ l)); [reflexivity|].
    apply lookup_insert_ne. exact E.
Qed.

Lemma entered_last (l : list Framework.t) n :
  (entered l).1 !! n = last (filter (λ g, Framework.name g = n) l).
Proof.
  unfold entered. rewrite entered_fold_frameworks, entered_frameworks_last, lookup_empty.
  destruct (last _); reflexivity.
Qed.

(** Property X10. The matcher the constructor returns lists under every
    parent name the names of the rules with that parent, in rule order and
    with repetitions, and resolves a name that some rule carries to the
    last rule of the list that carries it. This is what the search reads
    for a parent that is no name of a member inherited from
    [Object.prototype]; no rule has such a name as its parent, and the
    read of its children throws. *)
Theorem constructor_indexes
    (runtime : string) (fs : FileSystem.t) (frameworks : list Framework.t)
    (dependencies : gmap string string) (m : FrameworkMatcher.t) :
  FrameworkMatcher.constructor runtime fs frameworks dependencies = Returns m →
  (∀ parent,
      inherited parent = false →
      FrameworkMatcher.childrenAt m parent
      = Returns (map Framework.name
                   (filter (λ g, Framework.parent g = parent) frameworks)))
  ∧ (∀ parent,
       inherited parent = true →
       filter (λ g, Framework.parent g = parent) frameworks = []
       ∧ FrameworkMatcher.childrenAt m parent = Throws TypeError)
  ∧ (∀ name g,
       last (filter (λ g, Framework.name g = name) frameworks) = Some g ↔
       FrameworkMatcher.frameworkAt m name = Returns g).
Proof.
  intros Hm. apply constructor_inv in Hm. destruct Hm as (-> & idx & Hidx).
  split; [|split].
  - intros parent Hi. rewrite (instance_childrenAt _ _ _ _ idx parent Hidx), Hi.
    reflexivity.
  - intros parent Hi. rewrite (instance_childrenAt _ _ _ _ idx parent Hidx), Hi.
    split; [|reflexivity].
    destruct (index_cases frameworks) as [(idx' & _ & Hall)|(Hthrow & _)];
      [|congruence].
    destruct (filter _ frameworks) as [|g rest] eqn:E; [reflexivity|].
    assert (g ∈ filter (λ g, Framework.parent g = parent) frameworks) as Hg
      by (rewrite E; left).
    apply list_elem_of_filter in Hg. destruct Hg as [Hp Hg].
    specialize (Hall g Hg). congruence.
  - intros name g. rewrite (instance_frameworkAt _ _ _ _ idx name Hidx), entered_last.
    destruct (last _) as [g'|]; split; congruence.
Qed.

Lemma constructor_indexes_witness :
  FrameworkMatcher.childrenAt
    (FrameworkMatcher.instance "node" emptyFs
       [sveltekitAtRoot; sveltekit; svelte] ∅) "node"
  = Returns ["sveltekit"; "svelte"]
  ∧ FrameworkMatcher.frameworkAt
      (FrameworkMatcher.instance "node" emptyFs
         [sveltekitAtRoot; sveltekit; svelte] ∅) "sveltekit"
    = Returns sveltekit.
Proof.
  destruct (constructor_indexes "node" emptyFs [sveltekitAtRoot; sveltekit; svelte] ∅
              (FrameworkMatcher.instance "node" emptyFs
                 [sveltekitAtRoot; sveltekit; svelte] ∅)) as (Hc & _ & Hf).
  - vm_compute. reflexivity.
  - split; [rewrite Hc by (vm_compute; reflexivity)|apply Hf];
      vm_compute; reflexivity.
Defined.

Lemma matchHelper_found_pass runtime fs (frameworks : list Framework.t)
    dependencies completion fuel :
  ∀ name allMatches chain G,
    FrameworkMatcher.matchHelper fuel
      (FrameworkMatcher.instance runtime fs frameworks dependencies)
      completion name = Returns allMatches →
    chain ∈ allMatches → G ∈ chain →
    G ∈ frameworks
    ∧ FrameworkMatcher.localMatch
        (FrameworkMatcher.instance runtime fs frameworks dependencies) G = true.
Proof.
  induction fuel as [|fuel IH]; intros name allMatches chain G H Hchain HG;
    [discriminate|].
  assert (∀ names results chain,
    Forall2 (λ child res,
        FrameworkMatcher.matchHelper fuel
          (FrameworkMatcher.instance runtime fs frameworks dependencies)
          completion child = Returns res) names results →
    chain ∈ concat results → G ∈ chain →
    G ∈ frameworks
    ∧ FrameworkMatcher.localMatch
        (FrameworkMatcher.instance runtime fs frameworks dependencies) G = true)
    as Hbelow.
  { intros names results ch HF Hch HGch.
    apply elem_of_concat in Hch. destruct Hch as (res & Hch & Hres).
    apply list_elem_of_lookup in Hres. destruct Hres as [k Hk].
    destruct (Forall2_lookup_r _ _ _ _ _ HF Hk) as (c & _ & Hcall).
    exact (IH c res ch G Hcall Hch HGch). }
  apply matchHelper_inv in H.
  destruct H as [(_ & names & results & _ & _ & HF & ->)
                |(_ & self & Hself
                  & [(_ & ->)|(Hl & names & results & _ & HF & ->)])].
  - exact (Hbelow _ _ _ HF Hchain HG).
  - inversion Hchain.
  - apply instance_frameworkAt_elem in Hself. destruct Hself as [Hin _].
    destruct (concat results) as [|c cs] eqn:E.
    + apply list_elem_of_singleton in Hchain. subst chain.
      apply list_elem_of_singleton in HG. subst G. split; assumption.
    + apply list_elem_of_fmap in Hchain. destruct Hchain as (head & -> & Hhead).
      apply elem_of_app in HG. destruct HG as [HG|HG].
      * rewrite <- E in Hhead. exact (Hbelow _ _ _ HF Hhead HG).
      * apply list_elem_of_singleton in HG. subst G. split; assumption.
Qed.

(** Property X11. Whatever the rule list, every framework of a chain that
    the search or [match] returns is a rule of the list whose own
    dependency and file predicates hold. *)
Theorem found_frameworks_pass_their_predicates
    (runtime : string) (fs : FileSystem.t) (frameworks : list Framework.t)
    (dependencies : gmap string string)
    (completion : string → list string → list string) (fuel : nat)
    (G : Framework.t) :
  (∀ allMatches chain,
      FrameworkMatcher.matchHelper fuel
        (FrameworkMatcher.instance runtime fs frameworks dependencies)
        completion runtime = Returns allMatches →
      chain ∈ allMatches → G ∈ chain →
      G ∈ frameworks
      ∧ FrameworkMatcher.dependenciesMatch
          (FrameworkMatcher.instance runtime fs frameworks dependencies) G = true
      ∧ FrameworkMatcher.filesMatch
          (FrameworkMatcher.instance runtime fs frameworks dependencies) G = true)
  ∧ (∀ chain,
       FrameworkMatcher.match_ fuel
         (FrameworkMatcher.instance runtime fs frameworks dependencies)
         completion = Returns chain →
       G ∈ chain →
       G ∈ frameworks
       ∧ FrameworkMatcher.dependenciesMatch
           (FrameworkMatcher.instance runtime fs frameworks dependencies) G = true
       ∧ FrameworkMatcher.filesMatch
           (FrameworkMatcher.instance runtime fs frameworks dependencies) G = true).
Proof.
  assert (∀ allMatches chain,
    FrameworkMatcher.matchHelper fuel
      (FrameworkMatcher.instance runtime fs frameworks dependencies)
      completion runtime = Returns allMatches →
    chain ∈ allMatches → G ∈ chain →
    G ∈ frameworks
    ∧ FrameworkMatcher.dependenciesMatch
        (FrameworkMatcher.instance runtime fs frameworks dependencies) G = true
    ∧ FrameworkMatcher.filesMatch
        (FrameworkMatcher.instance runtime fs frameworks dependencies) G = true)
    as Hsearch.
  { intros allMatches chain Hall Hchain HG.
    destruct (matchHelper_found_pass _ _ _ _ _ _ _ _ _ _ Hall Hchain HG) as [Hin Hl].
    unfold FrameworkMatcher.localMatch in Hl. apply andb_true_iff in Hl.
    destruct Hl as [Hd Hf]. auto. }
  split; [exact Hsearch|].
  intros chain Hmatch HG. apply match_Returns_inv in Hmatch.
  destruct Hmatch as [->|(allMatches & Hall & Hchain)]; [inversion HG|].
  exact (Hsearch allMatches chain Hall Hchain HG).
Qed.

(** ** Chains on a forest: what the search finds *)

(** Property X12. On a rule set with pairwise distinct names, none of them
    the runtime name, every chain of the search is a path of the forest
    read upwards: each framework names the next one as its parent, and the
    parent of the last one is the runtime. *)
Theorem chains_follow_parent_links
    (runtime : string) (fs : FileSystem.t) (frameworks : list Framework.t)
    (dependencies : gmap string string)
    (completion : string → list string → list string)
    (fuel : nat) (allMatches : list Chain) (chain : Chain) :
  forest runtime frameworks →
  fair completion →
  FrameworkMatcher.matchHelper fuel
    (FrameworkMatcher.instance runtime fs frameworks dependencies)
    completion runtime = Returns allMatches →
  chain ∈ allMatches →
  (∃ top, last chain = Some top ∧ Framework.parent top = runtime)
  ∧ ∀ i f g, chain !! i = Some f → chain !! S i = Some g →
      Framework.parent f = Framework.name g.
Proof.
  intros Hforest Hfair Hall Hchain.
  destruct (forest_matchHelper_ascends runtime frameworks Hforest fs dependencies
              completion Hfair fuel runtime allMatches chain Hall Hchain)
    as (top & Hasc & _ & Hp & _).
  destruct (ascends_lookup chain top Hasc) as [Hlast Hlinks].
  split; [|exact Hlinks]. exists top. split; [exact Hlast|]. apply Hp. reflexivity.
Qed.

(** Property X13. On such a rule set, when moreover neither the runtime
    nor a name or a parent is the name of a member inherited from
    [Object.prototype], the search returns within [length frameworks + 1]
    levels of recursion and misses nothing: a framework that passes its
    predicates, and whose ancestors up to the runtime all pass theirs, is
    in a chain of the search. *)
Theorem matching_framework_is_found
    (runtime : string) (fs : FileSystem.t) (frameworks : list Framework.t)
    (dependencies : gmap string string)
    (completion : string → list string → list string)
    (fuel : nat) (F : Framework.t) :
  forest runtime frameworks →
  ordinary runtime frameworks →
  fair completion →
  length frameworks < fuel →
  under (FrameworkMatcher.instance runtime fs frameworks dependencies)
        frameworks runtime F →
  ∃ allMatches,
    FrameworkMatcher.matchHelper fuel
      (FrameworkMatcher.instance runtime fs frameworks dependencies)
      completion runtime = Returns allMatches
    ∧ ∃ chain, chain ∈ allMatches ∧ F ∈ chain.
Proof.
  intros Hforest Hord Hfair Hfuel Hunder.
  destruct (forest_matchHelper_total runtime frameworks Hforest fs dependencies
              completion Hfair fuel Hord runtime 0)
    as [allMatches Hall]; [constructor|lia|].
  exists allMatches. split; [exact Hall|].
  destruct (index_Returns frameworks) as [idx Hidx].
  { intros f Hf. destruct Hord as [_ Hord]. rewrite Forall_forall in Hord.
    apply Hord, Hf. }
  apply (forest_matchHelper_complete runtime frameworks Hforest fs dependencies
           completion Hfair idx runtime F Hidx Hunder fuel allMatches);
    [left; reflexivity|exact Hall].
Qed.
(** ** What [match] can fail with *)

Lemma gather_Throws_inv visit (names : list string) :
  ∀ (paths : list Chain) e,
    FrameworkMatcher.gather visit names paths = Throws e →
    ∃ name, name ∈ names ∧ visit name = Throws e.
Proof.
  induction names as [|name names IH]; intros paths e H; [discriminate|].
  simpl in H. destruct (visit name) as [res|e'|] eqn:Hn; simpl in H.
  - apply IH in H. destruct H as (c & Hc & Hv). exists c. split; [right; exact Hc|exact Hv].
  - injection H as ->. exists name. split; [left|exact Hn].
  - discriminate.
Qed.

(** The names listed as children are names the constructor registered. *)
Lemma instance_child_registered runtime fs (l : list Framework.t) dependencies
    p names c :
  FrameworkMatcher.childrenAt (FrameworkMatcher.instance runtime fs l dependencies) p
  = Returns names →
  c ∈ names →
  ∃ g, FrameworkMatcher.frameworkAt
         (FrameworkMatcher.instance runtime fs l dependencies) c = Returns g.
Proof.
  intros Hnames Hc.
  destruct (instance_childrenAt_elem _ _ _ _ _ _ _ Hnames Hc) as (child & Hin & <- & _).
  destruct (FrameworkMatcher.index l) as [idx| |] eqn:Hidx.
  - rewrite (instance_frameworkAt _ _ _ _ idx _ Hidx).
    assert (is_Some ((entered l).1 !! Framework.name child)) as [g Hg]
      by (apply entered_registered; eauto).
    rewrite Hg. eauto.
  - exfalso. revert Hnames Hc.
    unfold FrameworkMatcher.instance, FrameworkMatcher.childrenAt. rewrite Hidx. simpl.
    rewrite lookup_empty. destruct (inherited p); [discriminate|].
    intros [= <-] Hc. inversion Hc.
  - exfalso. revert Hnames Hc.
    unfold FrameworkMatcher.instance, FrameworkMatcher.childrenAt. rewrite Hidx. simpl.
    rewrite lookup_empty. destruct (inherited p); [discriminate|].
    intros [= <-] Hc. inversion Hc.
Qed.

Lemma childrenAt_Throws m framework e :
  FrameworkMatcher.childrenAt m framework = Throws e →
  e = TypeError ∧ inherited framework = true.
Proof.
  unfold FrameworkMatcher.childrenAt.
  destruct (FrameworkMatcher.children m !! framework); [discriminate|].
  destruct (inherited framework); [|discriminate].
  intros [= <-]. split; reflexivity.
Qed.

Lemma matchHelper_Throws_inv runtime fs (frameworks : list Framework.t)
    dependencies completion fuel :
  fair completion →
  ∀ name e,
    name = runtime
    ∨ (∃ g, FrameworkMatcher.frameworkAt
              (FrameworkMatcher.instance runtime fs frameworks dependencies) name
            = Returns g) →
    FrameworkMatcher.matchHelper fuel
      (FrameworkMatcher.instance runtime fs frameworks dependencies)
      completion name = Throws e →
    (e = TypeError
     ∧ (inherited runtime = true
        ∨ ∃ f, f ∈ frameworks ∧ inherited (Framework.name f) = true))
    ∨ (e = RangeError
       ∧ ∃ f, f ∈ frameworks ∧ Framework.name f = runtime
              ∧ Framework.parent f = runtime).
Proof.
  intros Hfair. induction fuel as [|fuel IH]; intros name e Hname H; [discriminate|].
  set (m := FrameworkMatcher.instance runtime fs frameworks dependencies) in *.
  rewrite matchHelper_S in H.
  change (FrameworkMatcher.runtime m) with runtime in H.
  assert (∀ names paths,
    FrameworkMatcher.childrenAt m name = Returns names →
    FrameworkMatcher.gather
      (FrameworkMatcher.descend (FrameworkMatcher.matchHelper fuel m completion)
         runtime name)
      (completion name names) paths = Throws e →
    (e = TypeError
     ∧ (inherited runtime = true
        ∨ ∃ f, f ∈ frameworks ∧ inherited (Framework.name f) = true))
    ∨ (e = RangeError
       ∧ ∃ f, f ∈ frameworks ∧ Framework.name f = runtime
              ∧ Framework.parent f = runtime)) as Hgather.
  { intros names paths Hnames G. apply gather_Throws_inv in G.
    destruct G as (c & Hc & Hv). rewrite (Hfair name _) in Hc.
    unfold FrameworkMatcher.descend in Hv.
    destruct (String.eqb_spec name runtime) as [E|E];
      destruct (String.eqb_spec c runtime) as [E'|E']; simpl in Hv.
    - injection Hv as <-. right. split; [reflexivity|].
      destruct (instance_childrenAt_elem _ _ _ _ _ _ _ Hnames Hc)
        as (child & Hin & Hn & Hp).
      exists child. split; [exact Hin|]. split; congruence.
    - apply (IH c e); [right|exact Hv].
      exact (instance_child_registered _ _ _ _ _ _ _ Hnames Hc).
    - apply (IH c e); [left; exact E'|exact Hv].
    - apply (IH c e); [right|exact Hv].
      exact (instance_child_registered _ _ _ _ _ _ _ Hnames Hc). }
  destruct (String.eqb_spec name runtime) as [E|E]; simpl in H.
  - destruct (FrameworkMatcher.childrenAt m name) as [names|e'|] eqn:Hnames;
      simpl in H; [| |discriminate].
    + destruct (FrameworkMatcher.gather _ _ _) as [paths|e'|] eqn:G; simpl in H;
        [discriminate| |discriminate].
      injection H as ->. exact (Hgather names [] eq_refl G).
    + injection H as ->. apply childrenAt_Throws in Hnames.
      destruct Hnames as [-> Hi]. left. split; [reflexivity|]. left. congruence.
  - destruct Hname as [Hrt|[self Hself]]; [contradiction|].
    rewrite Hself in H. simpl in H.
    destruct (negb _ || negb _); [discriminate|].
    destruct (FrameworkMatcher.childrenAt m name) as [names|e'|] eqn:Hnames;
      simpl in H; [| |discriminate].
    + destruct (FrameworkMatcher.gather _ _ _) as [paths|e'|] eqn:G; simpl in H.
      * destruct paths; discriminate.
      * injection H as ->. exact (Hgather names [] eq_refl G).
      * discriminate.
    + injection H as ->. apply childrenAt_Throws in Hnames.
      destruct Hnames as [-> Hi]. left. split; [reflexivity|]. right.
      apply instance_frameworkAt_elem in Hself. destruct Hself as [Hin <-].
      exists self. split; assumption.
Qed.

(** Property X14. What [match] can fail with on a matcher built from any
    rule list: the ambiguity error, which then names at least two
    frameworks; a [TypeError], only when the runtime or a rule is named
    like a member inherited from [Object.prototype]; a [RangeError], only
    when a rule that is named like the runtime has the runtime as its
    parent. *)
Theorem match_failure_causes
    (runtime : string) (fs : FileSystem.t) (frameworks : list Framework.t)
    (dependencies : gmap string string)
    (completion : string → list string → list string) (fuel : nat) (e : Error) :
  fair completion →
  FrameworkMatcher.match_ fuel
    (FrameworkMatcher.instance runtime fs frameworks dependencies) completion
  = Throws e →
  (∃ leaves, e = AmbiguousFramework leaves ∧ 2 ≤ length leaves)
  ∨ (e = TypeError
     ∧ (inherited runtime = true
        ∨ ∃ f, f ∈ frameworks ∧ inherited (Framework.name f) = true))
  ∨ (e = RangeError
     ∧ ∃ f, f ∈ frameworks ∧ Framework.name f = runtime
            ∧ Framework.parent f = runtime).
Proof.
  intros Hfair. unfold FrameworkMatcher.match_.
  destruct (FrameworkMatcher.matchHelper _ _ _ _) as [allMatches|e'|] eqn:Hall; simpl.
  - destruct (eliminate_spec allMatches) as (survivors & Hel & Hsub & _).
    rewrite Hel. simpl.
    destruct survivors as [|c1 [|c2 rest]]; [discriminate..|].
    assert (Forall (λ chain : Chain, chain ≠ []) (c1 :: c2 :: rest)) as Hne.
    { apply Forall_forall. intros chain Hin.
      pose proof (matchHelper_nonempty _ _ _ _ _ Hall) as Hn.
      rewrite Forall_forall in Hn. apply Hn. eapply elem_of_sublist; eassumption. }
    destruct (leaves_of_nonempty _ Hne) as (leaves & Hl & HF).
    unfold FrameworkMatcher.decide_. rewrite Hl. simpl. intros [= <-].
    left. exists leaves. split; [reflexivity|].
    apply Forall2_length in HF. simpl in HF. lia.
  - intros [= <-]. right.
    apply (matchHelper_Throws_inv runtime fs frameworks dependencies
             completion fuel Hfair runtime e'); [left; reflexivity|].
    exact Hall.
  - discriminate.
Qed.
(** ** The sweep *)

(** Property X15. The elimination sweep always ends with a result. What
    it returns is a sub-sequence of the candidates, obtained by removing
    chains one at a time, each superseded by another chain still present
    at that moment, and no chain of the result supersedes another chain of
    the result. *)
Theorem eliminate_survivors (allMatches : list Chain) :
  ∃ survivors,
    FrameworkMatcher.eliminate allMatches = Returns survivors
    ∧ sublist survivors allMatches
    ∧ prunes allMatches survivors
    ∧ ∀ p q x y, p ≠ q → survivors !! p = Some x → survivors !! q = Some y →
        supercedes x y = false.
Proof.
  unfold FrameworkMatcher.eliminate.
  destruct (outerLoop_spec (2 * length allMatches + 1) allMatches 0)
    as (r & Hr & Hpr & Hfin); [lia|lia|intros p q x y Hp; lia|].
  exists r. split; [exact Hr|]. split; [exact (prunes_sublist _ _ Hpr)|].
  split; [exact Hpr|].
  intros p q x y Hpq Hx Hy.
  destruct (Hfin p q x y) as [H _]; [|congruence|assumption..|exact H].
  apply lookup_lt_Some in Hx. exact Hx.
Qed.

Lemma eliminate_independent (a : list Chain) :
  (∀ p q x y, p ≠ q → a !! p = Some x → a !! q = Some y → supercedes x y = false) →
  FrameworkMatcher.eliminate a = Returns a.
Proof.
  intros Hind. destruct (eliminate_prunes a) as (s & Hs & Hpr).
  rewrite Hs. f_equal. destruct Hpr as [|a k j x y a' Hk Hj Hjk Hsup _];
    [reflexivity|].
  rewrite (Hind j k x y Hjk Hj Hk) in Hsup. discriminate.
Qed.

(** Property X16. Candidates of which none supersedes another pass the
    sweep unchanged; in particular the sweep applied to its own result
    changes nothing. *)
Theorem eliminate_keeps_independent_chains :
  (∀ a : list Chain,
      (∀ p q x y, p ≠ q → a !! p = Some x → a !! q = Some y →
         supercedes x y = false) →
      FrameworkMatcher.eliminate a = Returns a)
  ∧ (∀ allMatches survivors,
       FrameworkMatcher.eliminate allMatches = Returns survivors →
       FrameworkMatcher.eliminate survivors = Returns survivors).
Proof.
  split; [exact eliminate_independent|].
  intros allMatches survivors H.
  destruct (eliminate_spec allMatches) as (s & Hs & _ & Hind).
  rewrite Hs in H. injection H as <-. apply eliminate_independent. exact Hind.
Qed.

(** Property X17. With two candidates the sweep keeps the first one alone
    when it supersedes the second, even if the second supersedes it too;
    otherwise it keeps the second alone when that one supersedes the
    first, and both when neither supersedes the other. *)
Theorem eliminate_of_two_candidates (x y : Chain) :
  FrameworkMatcher.eliminate [x; y] =
  Returns (if supercedes x y then [x]
           else if supercedes y x then [y]
           else [x; y]).
Proof.
  destruct (supercedes x y) eqn:Hxy.
  - lazy -[supercedes]. rewrite Hxy. reflexivity.
  - destruct (supercedes y x) eqn:Hyx.
    + lazy -[supercedes]. rewrite Hxy. lazy -[supercedes]. rewrite Hyx. reflexivity.
    + lazy -[supercedes]. rewrite Hxy. lazy -[supercedes]. rewrite Hyx.
      lazy -[supercedes]. rewrite Hyx. lazy -[supercedes]. rewrite Hxy. reflexivity.
Qed.

(** ** [vars] and [detect] once more *)

Lemma firstVar_app key (a b : Chain) :
  firstVar key (a ++ b) =
  match firstVar key a with Some v => Some v | None => firstVar key b end.
Proof.
  induction a as [|f a IH]; simpl; [reflexivity|].
  destruct (varOf f key); [reflexivity|exact IH].
Qed.

(** Property X18. The variables of a chain put together from two parts
    are the variables of the first part, completed by those of the second
    part for the keys the first part does not declare; an empty chain has
    no variables. *)
Theorem vars_of_concatenation (a b : Chain) :
  vars (a ++ b) = vars a ∪ vars b ∧ vars [] = ∅.
Proof.
  split; [|reflexivity]. apply map_eq. intros key.
  rewrite lookup_union, !vars_lookup, firstVar_app.
  destruct (firstVar key a), (firstVar key b); reflexivity.
Qed.

Lemma detect_loop_spec fs (allRuntimes : list Runtime.t) found :
  detect_loop (map (λ runtime, Runtime.detectCodebase runtime fs) allRuntimes) found =
  match found, omap (λ runtime, Runtime.detectCodebase runtime fs) allRuntimes with
  | None, [] => Returns None
  | None, [codebase] => Returns (Some codebase)
  | Some codebase, [] => Returns (Some codebase)
  | _, _ => Throws AmbiguousRuntime
  end.
Proof.
  revert found. induction allRuntimes as [|runtime rest IH]; intros found.
  - destruct found; reflexivity.
  - cbn [map detect_loop].
    change (omap (λ runtime, Runtime.detectCodebase runtime fs) (runtime :: rest))
      with (match Runtime.detectCodebase runtime fs with
            | Some codebase =>
                codebase :: omap (λ runtime, Runtime.detectCodebase runtime fs) rest
            | None => omap (λ runtime, Runtime.detectCodebase runtime fs) rest
            end).
    destruct (Runtime.detectCodebase runtime fs) as [codebase|].
    + destruct found as [c|]; [reflexivity|]. rewrite IH.
      destruct (omap _ rest); reflexivity.
    + apply IH.
Qed.

(** Property X19. The outcome of [detect] does not depend on the order in
    which the runtime detectors are registered. *)
Theorem detect_ignores_detector_order
    (allRuntimes reordered : list Runtime.t) (fs : FileSystem.t) :
  allRuntimes ≡ₚ reordered →
  detect allRuntimes fs = detect reordered fs.
Proof.
  intros Hperm. unfold detect. rewrite !detect_loop_spec.
  assert (omap (λ runtime, Runtime.detectCodebase runtime fs) allRuntimes
          ≡ₚ omap (λ runtime, Runtime.detectCodebase runtime fs) reordered) as H.
  { rewrite Hperm. reflexivity. }
  destruct (omap _ allRuntimes) as [|c1 [|c2 l1]].
  - apply Permutation_nil_l in H. rewrite <- H. reflexivity.
  - apply Permutation_singleton_l in H. rewrite <- H. reflexivity.
  - pose proof (Permutation_length H) as Hlen.
    destruct (omap _ reordered) as [|d1 [|d2 l2]]; [discriminate..|reflexivity].
Qed.

(** ** Concrete runs of the further properties *)

Lemma interpolate_without_placeholder_witness :
  interpolate (Some "npm run build") None = Some "npm run build".
Proof.
  apply (proj2 (proj2 (interpolate_without_placeholder None)) "npm run build").
  left. reflexivity.
Defined.

Lemma interpolate_replaces_placeholder_witness :
  interpolate (Some "npm run ${script} --prod") (Some {["script" := "build"]})
  = Some "npm run build --prod".
Proof.
  exact (interpolate_replaces_placeholder (Some {["script" := "build"]})
           "npm run " "script" " --prod" eq_refl eq_refl eq_refl).
Defined.

Lemma interpolate_merges_placeholders_witness :
  interpolate (Some "${host}:${port}")
    (Some {["host" := "localhost"; "port" := "8080"]})
  = Some "".
Proof.
  exact (interpolate_merges_placeholders_of_a_line
           (Some {["host" := "localhost"; "port" := "8080"]})
           "host" ":" "port" eq_refl eq_refl eq_refl).
Defined.

Lemma interpolate_line_by_line_witness :
  interpolate (Some ("${host}" +:+ String (ascii_of_nat 10) "${port}"))
    (Some {["host" := "localhost"; "port" := "8080"]})
  = Some ("localhost" +:+ String (ascii_of_nat 10) "8080").
Proof.
  exact (interpolate_line_by_line
           (Some {["host" := "localhost"; "port" := "8080"]})
           "${host}" "${port}" (ascii_of_nat 10) eq_refl).
Defined.

Lemma found_frameworks_pass_witness :
  express ∈ [svelte; sveltekit; express]
  ∧ FrameworkMatcher.dependenciesMatch
      (FrameworkMatcher.instance "node" emptyFs [svelte; sveltekit; express] ∅)
      express = true
  ∧ FrameworkMatcher.filesMatch
      (FrameworkMatcher.instance "node" emptyFs [svelte; sveltekit; express] ∅)
      express = true.
Proof.
  apply (proj2 (found_frameworks_pass_their_predicates
                  "node" emptyFs [svelte; sveltekit; express] ∅ immediate 2 express)
           [express]).
  - vm_compute. reflexivity.
  - left.
Defined.

Lemma chains_follow_parent_links_witness :
  (∃ top, last [next; react] = Some top ∧ Framework.parent top = "node")
  ∧ ∀ i f g, [next; react] !! i = Some f → [next; react] !! S i = Some g →
      Framework.parent f = Framework.name g.
Proof.
  apply (chains_follow_parent_links "node" emptyFs [react; next] ∅ immediate 3
           [[next; react]] [next; react]).
  - split; apply (bool_decide_unpack _); vm_compute; exact I.
  - intros framework names. reflexivity.
  - vm_compute. reflexivity.
  - left.
Defined.

Lemma matching_framework_is_found_witness :
  ∃ allMatches,
    FrameworkMatcher.matchHelper 3
      (FrameworkMatcher.instance "node" emptyFs [react; next] ∅) immediate "node"
    = Returns allMatches
    ∧ ∃ chain, chain ∈ allMatches ∧ next ∈ chain.
Proof.
  apply (matching_framework_is_found "node" emptyFs [react; next] ∅ immediate 3 next).
  - split; apply (bool_decide_unpack _); vm_compute; exact I.
  - split; [vm_compute; reflexivity|].
    repeat (apply Forall_cons; split; [split; vm_compute; reflexivity|]).
    constructor.
  - intros framework names. reflexivity.
  - simpl. lia.
  - apply (under_below _ _ "node" react next).
    + left.
    + reflexivity.
    + vm_compute. reflexivity.
    + apply under_child; [right; left|reflexivity|vm_compute; reflexivity].
Defined.

Lemma match_failure_causes_witness :
  (∃ leaves,
      AmbiguousFramework ["react"; "express"] = AmbiguousFramework leaves
      ∧ 2 ≤ length leaves)
  ∨ (AmbiguousFramework ["react"; "express"] = TypeError
     ∧ (inherited "node" = true
        ∨ ∃ f, f ∈ [react; express] ∧ inherited (Framework.name f) = true))
  ∨ (AmbiguousFramework ["react"; "express"] = RangeError
     ∧ ∃ f, f ∈ [react; express] ∧ Framework.name f = "node"
            ∧ Framework.parent f = "node").
Proof.
  apply (match_failure_causes "node" emptyFs [react; express] ∅ immediate 2).
  - intros framework names. reflexivity.
  - vm_compute. reflexivity.
Defined.

Lemma eliminate_keeps_independent_witness :
  FrameworkMatcher.eliminate [[react]; [express]] = Returns [[react]; [express]].
Proof.
  apply (proj1 eliminate_keeps_independent_chains).
  intros [|[|p]] [|[|q]] x y Hpq Hx Hy; try discriminate; try congruence;
    injection Hx as <-; injection Hy as <-; reflexivity.
Defined.

Lemma detect_ignores_detector_order_witness :
  detect [silentRuntime; packageJsonRuntime]
         (MockFileSystem.new {["package.json" := "{}"]})
  = detect [packageJsonRuntime; silentRuntime]
           (MockFileSystem.new {["package.json" := "{}"]}).
Proof.
  apply detect_ignores_detector_order. apply perm_swap.
Defined.

Lemma forest_match_settles_witness :
  (∃ chain,
      FrameworkMatcher.match_ 3
        (FrameworkMatcher.instance "node" emptyFs [react; next] ∅) immediate
      = Returns chain)
  ∨ (∃ leaves,
      FrameworkMatcher.match_ 3
        (FrameworkMatcher.instance "node" emptyFs [react; next] ∅) immediate
      = Throws (AmbiguousFramework leaves)).
Proof.
  apply (forest_match_settles "node" emptyFs [react; next] ∅ immediate).
  - split; apply (bool_decide_unpack _); vm_compute; exact I.
  - split; [vm_compute; reflexivity|].
    repeat (apply Forall_cons; split; [split; vm_compute; reflexivity|]).
    constructor.
  - intros framework names. reflexivity.
Defined.
